(** * ShelfLife+ simulator: the calculation core

    A shallow embedding of the pure functions behind the simulator page:
    the load model and its two mutations ([addVegetable], [updateQuantity]),
    the truck-capacity arithmetic, the aggregate compatibility badge
    ([getCompatibilityStatus]), the transport recommendation
    ([getTransportRecommendation]), the layout heuristic ([optimizeLoading])
    and the impact estimate ([calculateImpact]).

    Conventions.
    - Quantities, temperatures and shelf lives are integers in every catalog
      entry and stay integers under the two mutations; they are [Z].  The
      source adds them as binary64 numbers, which is exact up to 2 to the
      power 53; statements that need the bound carry it as a hypothesis.
    - [calculateImpact] computes with non-integer JavaScript numbers.  Each
      arithmetic operation there is the exact rational result passed through
      a rounding operator [rnd]; the literals are rounded too.  Theorems
      about it hold for every rounding operator that is monotone, idempotent
      and fixes zero (the identity, i.e. exact arithmetic, is one; so is
      round-to-nearest on the finite range).
    - A JavaScript object used as an insertion-ordered map is an association
      list; arrays are lists. *)

From Stdlib Require Import ZArith QArith Qround Qminmax.
From Stdlib Require Import List String Ascii Bool Lia Lqa Permutation DecimalString.
Import ListNotations.

Open Scope string_scope.
Open Scope list_scope.
Open Scope Z_scope.

(** ** Data model (VegetableInput.tsx) *)

Inductive Level : Type := low | medium | high.

Definition isHigh (l : Level) : bool :=
  match l with high => true | _ => false end.

Module Temp.
Record t : Type := mk { min : Z; max : Z }.
End Temp.

Record Vegetable : Type := mkVegetable {
  id : string;
  name : string;
  quantity : Z;
  ethyleneProduction : Level;
  ethyleneSensitivity : Level;
  idealTemp : Temp.t;
  shelfLife : Z
}.

(** [Omit<Vegetable, 'id' | 'quantity'>] *)
Record VegetableData : Type := mkData {
  d_name : string;
  d_ethyleneProduction : Level;
  d_ethyleneSensitivity : Level;
  d_idealTemp : Temp.t;
  d_shelfLife : Z
}.

Definition entry (n : string) (p s : Level) (lo hi life : Z) : string * VegetableData :=
  (n, mkData n p s (Temp.mk lo hi) life).

Definition VEGETABLE_DATABASE : list (string * VegetableData) :=
  [ entry "Carrots" low medium 0 2 21;
    entry "Cabbage" low medium 0 2 20;
    entry "Broccoli" low high 0 2 7;
    entry "Cauliflower" low high 0 2 10;
    entry "Lettuce" low high 0 2 10;
    entry "Celery" low high 0 2 14;
    entry "Chinese cabbage" low medium 0 2 14;
    entry "Eggplant" low high 10 12 7;
    entry "Tomatoes" high medium 12 15 7;
    entry "Okra" low high 7 10 5;
    entry "Ampalaya" low medium 10 12 5;
    entry "Sitaw" low high 7 10 5;
    entry "Patola" low medium 10 12 7;
    entry "Kalabasa" low low 10 12 30;
    entry "Pechay" low medium 0 2 7;
    entry "Potatoes" low low 4 8 60;
    entry "Onions" low low 0 4 90;
    entry "Peppers" low medium 7 10 14 ].

(** The table lookup: what the indexing [VEGETABLE_DATABASE[k]] gives for
    the empty string and for the keys of the table, the only values the
    select element offers. *)
Fixpoint lookup (k : string) (db : list (string * VegetableData)) : option VegetableData :=
  match db with
  | [] => None
  | (k', d) :: rest => if String.eqb k' k then Some d else lookup k rest
  end.

(** [{ id, quantity, ...vegetableData }] *)
Definition spread (newId : string) (q : Z) (d : VegetableData) : Vegetable :=
  mkVegetable newId (d_name d) q (d_ethyleneProduction d) (d_ethyleneSensitivity d)
              (d_idealTemp d) (d_shelfLife d).

(** ** Load model mutations (VegetableInput.tsx, lines 57-79)

    [addVegetable] reads the selected name and draws a random id; both are
    arguments here.  The functions return the array handed to
    [onVegetablesChange]; an early [return] leaves the model as it was. *)

Definition addVegetable (selectedVegetable newId : string) (vegetables : list Vegetable)
  : list Vegetable :=
  if String.eqb selectedVegetable ""
     || existsb (fun v => String.eqb (name v) selectedVegetable) vegetables
  then vegetables
  else match lookup selectedVegetable VEGETABLE_DATABASE with
       | None => vegetables
       | Some vegetableData => vegetables ++ [spread newId 1 vegetableData]
       end.

Definition withQuantity (v : Vegetable) (q : Z) : Vegetable :=
  mkVegetable (id v) (name v) q (ethyleneProduction v) (ethyleneSensitivity v)
              (idealTemp v) (shelfLife v).

Definition bump (target : string) (change : Z) (v : Vegetable) : Vegetable :=
  if String.eqb (id v) target then withQuantity v (Z.max 0 (quantity v + change)) else v.

Definition updateQuantity (target : string) (change : Z) (vegetables : list Vegetable)
  : list Vegetable :=
  filter (fun v => 0 <? quantity v) (map (bump target change) vegetables).

(** ** Planning parameters and capacity (page component, lines 15-51) *)

Inductive TruckType : Type := ambient | refrigerated | ventilated.
Module Size.
Inductive t : Type := small | medium | large.
End Size.
Definition TruckSize : Type := Size.t.
Inductive TravelTime : Type := early_morning | daytime | evening | night.

Record ScenarioMeta : Type := mkMeta {
  truckType : TruckType;
  truckSize : TruckSize;
  truckQuantity : Z;
  bestTravelTime : TravelTime;
  autoTruckQuantity : bool;
  routeDurationHours : Q;
  ambientDeltaC : Q
}.

Definition defaultMeta : ScenarioMeta :=
  mkMeta refrigerated Size.medium 1 early_morning true (3 # 1) (4 # 1).

Definition getTotalQuantity (vegetables : list Vegetable) : Z :=
  fold_left (fun sum veg => sum + quantity veg) vegetables 0.

Definition capacityBySize (s : TruckSize) : Z :=
  match s with Size.small => 100 | Size.medium => 200 | Size.large => 400 end.

(** [Math.ceil(a / b)] on integer operands. *)
Definition ceilDiv (a b : Z) : Z := Qceiling (inject_Z a / inject_Z b).


(** The number of trucks the page works with: the derived count when
    [autoTruckQuantity] is set, the manual one otherwise (the second factor
    of [getTotalCapacity]). *)
Definition effectiveTruckQuantity (meta : ScenarioMeta) (vegetables : list Vegetable) : Z :=
  if autoTruckQuantity meta
  then Z.max 1 (ceilDiv (getTotalQuantity vegetables) (capacityBySize (truckSize meta)))
  else Z.max 1 (truckQuantity meta).

Definition getTotalCapacity (meta : ScenarioMeta) (vegetables : list Vegetable) : Z :=
  capacityBySize (truckSize meta) * effectiveTruckQuantity meta vegetables.

(** ** Compatibility (page component lines 53-74, analysis component) *)

Definition ethyleneConflict (veg1 veg2 : Vegetable) : bool :=
  (isHigh (ethyleneProduction veg1) && isHigh (ethyleneSensitivity veg2))
  || (isHigh (ethyleneProduction veg2) && isHigh (ethyleneSensitivity veg1)).

Definition tempConflict (veg1 veg2 : Vegetable) : bool :=
  (Temp.max (idealTemp veg1) <? Temp.min (idealTemp veg2))
  || (Temp.max (idealTemp veg2) <? Temp.min (idealTemp veg1)).

Inductive Status : Type := neutral | incompatible | compatible.

Record Badge : Type := mkBadge { status : Status; text : string }.

(** The two nested index loops: for each [i], every [j > i] in order; the
    first conflicting pair returns. *)
Fixpoint quickCheck (vegetables : list Vegetable) : bool :=
  match vegetables with
  | [] => false
  | veg1 :: later => existsb (fun veg2 => ethyleneConflict veg1 veg2) later || quickCheck later
  end.

Definition getCompatibilityStatus (vegetables : list Vegetable) : Badge :=
  if (List.length vegetables <? 2)%nat then mkBadge neutral "Add more vegetables"
  else if quickCheck vegetables then mkBadge incompatible "Compatibility issues detected"
  else mkBadge compatible "All vegetables compatible".

(** ** Transport recommendation (analysis component, lines 413-444) *)

Inductive TransportType : Type :=
  t_refrigerated | t_ventilated | t_controlled_atmosphere.

Record TransportRecommendation : Type := mkRec {
  rec_type : TransportType;
  temperature : Temp.t;
  humidity : string;
  ventilation : bool;
  separation : list string
}.

(** [Math.max(...xs)] and [Math.min(...xs)] on a non-empty argument list
    [x :: xs]; the function only spreads non-empty arrays. *)
Definition Math_max (x : Z) (xs : list Z) : Z := fold_left Z.max xs x.
Definition Math_min (x : Z) (xs : list Z) : Z := fold_left Z.min xs x.

(** [names.join(', ')] *)
Definition join (names : list string) : string := String.concat ", " names.

Definition getTransportRecommendation (vegetables : list Vegetable) : TransportRecommendation :=
  match vegetables with
  | [] => mkRec t_ventilated (Temp.mk 10 15) "85-90%" true []
  | v :: rest =>
      let minTemp := Math_max (Temp.min (idealTemp v)) (map (fun v => Temp.min (idealTemp v)) rest) in
      let maxTemp := Math_min (Temp.max (idealTemp v)) (map (fun v => Temp.max (idealTemp v)) rest) in
      let highEthyleneProducers := filter (fun v => isHigh (ethyleneProduction v)) vegetables in
      let highEthyleneSensitive := filter (fun v => isHigh (ethyleneSensitivity v)) vegetables in
      let needsSeparation :=
        (0 <? List.length highEthyleneProducers)%nat
        && (0 <? List.length highEthyleneSensitive)%nat in
      mkRec (if minTemp <=? 4 then t_refrigerated else t_controlled_atmosphere)
            (Temp.mk (Z.max 0 minTemp) (if maxTemp >? minTemp then maxTemp else minTemp + 2))
            "85-95%"
            true
            (if needsSeparation
             then [ ("Separate: " ++ join (map name highEthyleneProducers))%string;
                    ("From: " ++ join (map name highEthyleneSensitive))%string ]
             else [])
  end.

(** ** Layout heuristic (TruckVisualizer.tsx, lines 11-84) *)

Record Position : Type := mkPos { x : Z; y : Z; width : Z; height : Z }.

Record LoadZone : Type := mkZone {
  zone_id : string;
  zone_vegetables : list Vegetable;
  zone_temperature : string;
  position : Position;
  color : string
}.

(** Template-literal rendering of an integer. *)
Definition show (n : Z) : string := NilZero.string_of_int (Z.to_int n).

Definition tempKey (veg : Vegetable) : string :=
  show (Temp.min (idealTemp veg)) ++ "-" ++ show (Temp.max (idealTemp veg)).

(** [if (!groups[tempKey]) groups[tempKey] = []; groups[tempKey].push(veg)]
    on an object whose keys keep their insertion order (a key always holds
    a dash, so it is never an array index, which would be ordered first). *)
Fixpoint pushTo (tempKey : string) (veg : Vegetable) (groups : list (string * list Vegetable))
  : list (string * list Vegetable) :=
  match groups with
  | [] => [(tempKey, [veg])]
  | (k, members) :: rest =>
      if String.eqb k tempKey then (k, members ++ [veg]) :: rest
      else (k, members) :: pushTo tempKey veg rest
  end.

Definition temperatureGroups (vegetables : list Vegetable) : list (string * list Vegetable) :=
  fold_left (fun groups veg => pushTo (tempKey veg) veg groups) vegetables [].

Definition len {A : Type} (l : list A) : Z := Z.of_nat (List.length l).

(** The loop state is the pair of [zones] and [zoneIndex]. *)
Definition pushZone (st : list LoadZone * Z) (members : list Vegetable) (tempRange : string)
    (pos : Z -> Position) (colour : string) : list LoadZone * Z :=
  let (zones, zoneIndex) := st in
  (zones ++ [mkZone ("zone-" ++ show zoneIndex) members (tempRange ++ "°C") (pos (len zones)) colour],
   zoneIndex + 1).

(** Body of the [forEach] over [Object.entries(temperatureGroups)]. *)
Definition zoneStep (st : list LoadZone * Z) (band : string * list Vegetable)
  : list LoadZone * Z :=
  let (tempRange, veggies) := band in
  let highEthyleneProducers := filter (fun v => isHigh (ethyleneProduction v)) veggies in
  let ethyleneSensitive := filter (fun v => isHigh (ethyleneSensitivity v)) veggies in
  let others :=
    filter (fun v => negb (isHigh (ethyleneProduction v)) && negb (isHigh (ethyleneSensitivity v)))
           veggies in
  if (0 <? len highEthyleneProducers) && (0 <? len ethyleneSensitive) then
    let st1 := pushZone st highEthyleneProducers tempRange
                 (fun n => mkPos 10 (10 + n * 120) 180 100)
                 "bg-warning-orange/20 border-warning-orange/40" in
    let st2 := pushZone st1 ethyleneSensitive tempRange
                 (fun n => mkPos 210 (10 + n * 120) 180 100)
                 "bg-fresh-green-light/40 border-fresh-green/40" in
    if 0 <? len others then
      pushZone st2 others tempRange
        (fun n => mkPos 410 (10 + n * 120) 180 100)
        "bg-secondary/60 border-border"
    else st2
  else
    pushZone st veggies tempRange
      (fun n => mkPos (10 + (n mod 3) * 200) (10 + (n / 3) * 120) 180 100)
      "bg-fresh-green-light/40 border-fresh-green/40".

Definition optimizeLoading (vegetables : list Vegetable) : list LoadZone :=
  match vegetables with
  | [] => []
  | _ => fst (fold_left zoneStep (temperatureGroups vegetables) ([], 0))
  end.

(** ** Impact estimate (TruckVisualizer.tsx, lines 185-263) *)

Record Regime : Type := mkRegime {
  wastePercentage : Q;
  shelfLifeDays : Q;
  estimatedLoss : Q
}.

Record Savings : Type := mkSavings {
  wasteReduction : Q;
  shelfLifeExtension : Q;
  costSavings : Q
}.

Record ImpactCalculation : Type := mkImpact {
  withoutShelfLife : Regime;
  withShelfLife : Regime;
  savings : Savings
}.

(** An integer field read as a number. *)
Definition num (n : Z) : Q := inject_Z n.

Section Impact.

Variable rnd : Q -> Q.

(** JavaScript arithmetic: the exact result, rounded. *)
Definition lit (q : Q) : Q := rnd q.
Definition add (a b : Q) : Q := rnd (a + b)%Q.
Definition sub (a b : Q) : Q := rnd (a - b)%Q.
Definition mul (a b : Q) : Q := rnd (a * b)%Q.
Definition div (a b : Q) : Q := rnd (a / b)%Q.

Definition hasEthyleneIssues (vegetables : list Vegetable) (veg : Vegetable) : bool :=
  existsb (fun other =>
             negb (String.eqb (id other) (id veg))
             && ((isHigh (ethyleneProduction veg) && isHigh (ethyleneSensitivity other))
                 || (isHigh (ethyleneProduction other) && isHigh (ethyleneSensitivity veg))))
          vegetables.

Definition hasTemperatureIssues (vegetables : list Vegetable) (veg : Vegetable) : bool :=
  existsb (fun other =>
             negb (String.eqb (id other) (id veg))
             && ((Temp.max (idealTemp veg) <? Temp.min (idealTemp other))
                 || (Temp.max (idealTemp other) <? Temp.min (idealTemp veg))))
          vegetables.

Definition wasteMultiplier (vegetables : list Vegetable) (veg : Vegetable) : Q :=
  let m0 := lit 0.25 in
  let m1 := if hasEthyleneIssues vegetables veg then add m0 (lit 0.20) else m0 in
  if hasTemperatureIssues vegetables veg then add m1 (lit 0.15) else m1.

Definition baselineWaste (vegetables : list Vegetable) : Q :=
  fold_left (fun total veg =>
               add total (mul (num (quantity veg))
                              (Qmin (wasteMultiplier vegetables veg) (lit 0.70))))
            vegetables 0%Q.

Definition optimizedWaste (vegetables : list Vegetable) : Q :=
  fold_left (fun total veg =>
               let baseWaste := lit 0.10 in
               add total (mul (num (quantity veg)) baseWaste))
            vegetables 0%Q.

Definition totalQuantity (vegetables : list Vegetable) : Q :=
  fold_left (fun sum veg => add sum (num (quantity veg))) vegetables 0%Q.

Definition avgShelfLife (vegetables : list Vegetable) : Q :=
  div (fold_left (fun sum veg => add sum (num (shelfLife veg))) vegetables 0%Q)
      (num (len vegetables)).

(** [c ? a : b] with [c] the test [totalQuantity > 0]. *)
Definition ifPositive (t a : Q) : Q := if Qle_bool t 0 then 0%Q else a.

Definition calculateImpact (vegetables : list Vegetable) (unitCost : Q) : ImpactCalculation :=
  match vegetables with
  | [] => mkImpact (mkRegime 0 0 0) (mkRegime 0 0 0) (mkSavings 0 0 0)
  | _ =>
      let baselineWaste := baselineWaste vegetables in
      let optimizedWaste := optimizedWaste vegetables in
      let totalQuantity := totalQuantity vegetables in
      let avgShelfLife := avgShelfLife vegetables in
      let baselineLoss := mul baselineWaste unitCost in
      let optimizedLoss := mul optimizedWaste unitCost in
      mkImpact
        (mkRegime (ifPositive totalQuantity (mul (div baselineWaste totalQuantity) (lit 100)))
                  (Qmax 1 (mul avgShelfLife (lit 0.7)))
                  baselineLoss)
        (mkRegime (ifPositive totalQuantity (mul (div optimizedWaste totalQuantity) (lit 100)))
                  (mul avgShelfLife (lit 1.2))
                  optimizedLoss)
        (mkSavings (ifPositive totalQuantity
                      (mul (div (sub baselineWaste optimizedWaste) totalQuantity) (lit 100)))
                   (sub (mul avgShelfLife (lit 1.2)) (mul avgShelfLife (lit 0.7)))
                   (sub baselineLoss optimizedLoss))
  end.

End Impact.

(** Exact arithmetic: no rounding at all. *)
Definition exact (q : Q) : Q := q.

(** ** Predicates used in the statements *)

(** Every item of the load model has quantity at least 1. *)
Definition allPositive (vegetables : list Vegetable) : Prop :=
  Forall (fun v => 1 <= quantity v) vegetables.

Definition isTarget (target : string) (v : Vegetable) : bool := String.eqb (id v) target.

(** An item stays in the model after [updateQuantity target change]. *)
Definition survives (target : string) (change : Z) (v : Vegetable) : bool :=
  negb (isTarget target v) || (0 <? quantity v + change).

Definition isMaxOf (m : Z) (l : list Z) : Prop := In m l /\ forall x, In x l -> x <= m.
Definition isMinOf (m : Z) (l : list Z) : Prop := In m l /\ forall x, In x l -> m <= x.

Definition tempMins (vegetables : list Vegetable) : list Z :=
  map (fun v => Temp.min (idealTemp v)) vegetables.
Definition tempMaxs (vegetables : list Vegetable) : list Z :=
  map (fun v => Temp.max (idealTemp v)) vegetables.

(** An item that is both a high producer and highly sensitive. *)
Definition dualRole (v : Vegetable) : bool :=
  isHigh (ethyleneProduction v) && isHigh (ethyleneSensitivity v).

(** All items placed by the layout, zone after zone. *)
Definition placed (zones : list LoadZone) : list Vegetable :=
  List.concat (map zone_vegetables zones).

(** Some pair of positions [i < j] holds items with an ethylene conflict. *)
Definition ethylenePair (vegetables : list Vegetable) : Prop :=
  exists i j a b, (i < j)%nat /\ nth_error vegetables i = Some a
                  /\ nth_error vegetables j = Some b /\ ethyleneConflict a b = true.

(** Same, for a pair whose temperature ranges do not overlap. *)
Definition temperaturePair (vegetables : list Vegetable) : Prop :=
  exists i j a b, (i < j)%nat /\ nth_error vegetables i = Some a
                  /\ nth_error vegetables j = Some b /\ tempConflict a b = true.

(** ** Sample loads *)

Definition onionsPotatoes : list Vegetable :=
  addVegetable "Potatoes" "id2" (addVegetable "Onions" "id1" []).

Definition cauliflowerOnly : list Vegetable := addVegetable "Cauliflower" "id3" [].

Definition tomatoesEggplant : list Vegetable :=
  addVegetable "Eggplant" "id5" (addVegetable "Tomatoes" "id4" []).

Definition tomatoesCabbage : list Vegetable :=
  addVegetable "Cabbage" "id7" (addVegetable "Tomatoes" "id6" []).

(** The "Bananas" entry of the earlier catalog (VegetableInput.tsx, lines
    190-196): a high producer that is also highly sensitive. *)
Definition bananas : Vegetable :=
  mkVegetable "b1" "Bananas" 1 high high (Temp.mk 13 15) 5.

(** A short-lived item: 0.7 times its shelf life is below one day. *)
Definition sprouts : Vegetable :=
  mkVegetable "s1" "Sprouts" 2 low low (Temp.mk 0 2) 1.

(** An item with a sub-zero range, as a shared link may carry. *)
Definition frozenPeas : Vegetable :=
  mkVegetable "f1" "Frozen peas" 3 low low (Temp.mk (-20) (-18)) 300.

(** ** Pairwise analysis (analysis component, lines 342-410) *)

Module Result.
Record t : Type := mk {
  pair : string;
  compatible : bool;
  reason : string;
  severity : Level
}.
End Result.

(** Body of the inner loop: the verdict pushed for [veg1], [veg2]. *)
Definition verdict (veg1 veg2 : Vegetable) : Result.t :=
  let ethyleneConflict :=
    (isHigh (ethyleneProduction veg1) && isHigh (ethyleneSensitivity veg2))
    || (isHigh (ethyleneProduction veg2) && isHigh (ethyleneSensitivity veg1)) in
  let tempConflict :=
    (Temp.max (idealTemp veg1) <? Temp.min (idealTemp veg2))
    || (Temp.max (idealTemp veg2) <? Temp.min (idealTemp veg1)) in
  let pairName := (name veg1 ++ " + " ++ name veg2)%string in
  if ethyleneConflict && tempConflict then
    Result.mk pairName false "Ethylene conflict + temperature mismatch" high
  else if ethyleneConflict then
    Result.mk pairName false "Ethylene gas will cause premature ripening" high
  else if tempConflict then
    Result.mk pairName false "Incompatible temperature requirements" medium
  else
    Result.mk pairName true "Compatible for transport" low.

(** [for i] / [for j = i + 1]: the pairs in lexicographic index order. *)
Fixpoint analyzeCompatibility (vegetables : list Vegetable) : list Result.t :=
  match vegetables with
  | [] => []
  | veg1 :: later => map (verdict veg1) later ++ analyzeCompatibility later
  end.

(** ** Decrement with confirmation (VegetableInput.tsx, lines 52-90, 139-162)

    The component state touched by the handlers: the load model held by the
    parent and the two dialog fields. *)

Record InputState : Type := mkInput {
  vegetables : list Vegetable;
  confirmOpen : bool;
  targetVegId : option string
}.

Definition handleDecrement (target : string) (st : InputState) : InputState :=
  match find (fun v => String.eqb (id v) target) (vegetables st) with
  | None => st
  | Some veg =>
      if quantity veg <=? 1
      then mkInput (vegetables st) true (Some target)
      else mkInput (updateQuantity target (-1) (vegetables st)) (confirmOpen st) (targetVegId st)
  end.

(** The dialog's "Remove" action; [if (targetVegId)] is false for [null]
    and for the empty string. *)
Definition confirmRemove (st : InputState) : InputState :=
  let kept :=
    match targetVegId st with
    | Some target =>
        if String.eqb target "" then vegetables st
        else updateQuantity target (-1) (vegetables st)
    | None => vegetables st
    end in
  mkInput kept false None.

(** ** Utilization (page component, line 50) *)

(** [Math.round]: the nearest integer, halves going up. *)
Definition Math_round (q : Q) : Z := Qfloor (q + (1 # 2))%Q.

Section Utilization.

Variable rnd : Q -> Q.

Definition utilization (meta : ScenarioMeta) (vegetables : list Vegetable) : Z :=
  Math_round
    (mul rnd (div rnd (num (getTotalQuantity vegetables))
                      (num (Z.max 1 (getTotalCapacity meta vegetables))))
             (lit rnd 100)).

End Utilization.



(** ** CSV export (page component, lines 163-175) *)

Definition dquote : ascii := "034"%char.
Definition comma : ascii := ","%char.
Definition newline : ascii := "010"%char.

(** The test of the field against the class of double quote, comma and
    line feed. *)
Fixpoint needsQuoting (f : string) : bool :=
  match f with
  | EmptyString => false
  | String c rest =>
      Ascii.eqb c dquote || Ascii.eqb c comma || Ascii.eqb c newline || needsQuoting rest
  end.

(** The global replace of each double quote by two. *)
Fixpoint doubleQuotes (f : string) : string :=
  match f with
  | EmptyString => EmptyString
  | String c rest =>
      if Ascii.eqb c dquote then String dquote (String dquote (doubleQuotes rest))
      else String c (doubleQuotes rest)
  end.

Definition csvField (f : string) : string :=
  if needsQuoting f then String dquote (doubleQuotes f ++ String dquote EmptyString)%string else f.

Definition csvHeaders : list string :=
  [ "Name"; "Quantity"; "Ethylene Production"; "Ethylene Sensitivity";
    "Temp Min (°C)"; "Temp Max (°C)"; "Shelf Life (days)" ].

Definition levelName (l : Level) : string :=
  match l with low => "low" | medium => "medium" | high => "high" end.

Definition csvRow (v : Vegetable) : list string :=
  [ name v; show (quantity v); levelName (ethyleneProduction v);
    levelName (ethyleneSensitivity v); show (Temp.min (idealTemp v));
    show (Temp.max (idealTemp v)); show (shelfLife v) ].

Definition csvLine (r : list string) : string :=
  String.concat (String comma EmptyString) (map csvField r).

Definition exportScenarioCSV (vegetables : list Vegetable) : string :=
  String.concat (String newline EmptyString) (map csvLine (csvHeaders :: map csvRow vegetables)).

(** ** Predicates on layouts *)

(** The zone object built by one [zones.push] from the loop state. *)
Definition zoneAt (st : list LoadZone * Z) (members : list Vegetable) (tempRange : string)
    (pos : Z -> Position) (colour : string) : LoadZone :=
  mkZone ("zone-" ++ show (snd st)) members (tempRange ++ "°C") (pos (len (fst st))) colour.

(** The id of the zone of rank [k]. *)
Definition zoneName (k : nat) : string := "zone-" ++ show (Z.of_nat k).

(** The cell of rank [k] in the three-column grid. *)
Definition gridCell (k : nat) : Position :=
  mkPos (10 + (Z.of_nat k mod 3) * 200) (10 + (Z.of_nat k / 3) * 120) 180 100.

(** Two rectangles share a point of positive area. *)
Definition overlaps (p q : Position) : Prop :=
  x p < x q + width q /\ x q < x p + width p
  /\ y p < y q + height q /\ y q < y p + height p.

(** No temperature band holds both a high producer and a highly sensitive
    item, so the heuristic never splits a band. *)
Definition neverSplits (vegetables : list Vegetable) : Prop :=
  forall a b, In a vegetables -> In b vegetables -> tempKey a = tempKey b ->
              isHigh (ethyleneProduction a) = true ->
              isHigh (ethyleneSensitivity b) = true -> False.

(** A zone is well labelled: it is not empty and its label is the
    temperature key of each of its items, followed by the unit. *)
Definition wellLabelled (z : LoadZone) : Prop :=
  zone_vegetables z <> []
  /\ forall v, In v (zone_vegetables z) -> zone_temperature z = (tempKey v ++ "°C")%string.

(** A zone holds both a high producer and a highly sensitive item. *)
Definition mixes (z : LoadZone) : bool :=
  existsb (fun v => isHigh (ethyleneProduction v)) (zone_vegetables z)
  && existsb (fun v => isHigh (ethyleneSensitivity v)) (zone_vegetables z).

(** A group of the temperature map: not empty, every member under its key. *)
Definition properBand (band : string * list Vegetable) : Prop :=
  snd band <> [] /\ forall v, In v (snd band) -> tempKey v = fst band.

(** ** Load models the input component can build *)

(** The values the select element can hold: its placeholder, the empty
    string, or a key of the catalog (VegetableInput.tsx, lines 98-110).  On
    these the indexing [VEGETABLE_DATABASE[selectedVegetable]] is the table
    lookup; other strings could also name a property the object inherits. *)
Definition offered (sel : string) : Prop :=
  sel = "" \/ In sel (map fst VEGETABLE_DATABASE).

(** The largest magnitude up to which every integer is a JavaScript number
    and sums of such integers are exact: 2 to the power 53. *)
Definition maxExact : Z := 9007199254740992.

(** Some other item of the load conflicts with [v] under the test [c]. *)
Definition conflictsWith (c : Vegetable -> Vegetable -> bool) (vegetables : list Vegetable)
    (v : Vegetable) : Prop :=
  exists other, In other vegetables /\ other <> v /\ c v other = true.

(** The models obtained from the empty one through the two handlers of
    VegetableInput.tsx, with any offered selection, any drawn id, any target
    and any change. *)

Inductive Reachable : list Vegetable -> Prop :=
| reach_start : Reachable []
| reach_add (sel newId : string) (vs : list Vegetable) :
    offered sel -> Reachable vs -> Reachable (addVegetable sel newId vs)
| reach_update (target : string) (change : Z) (vs : list Vegetable) :
    Reachable vs -> Reachable (updateQuantity target change vs).

(** An item carrying the attributes of a catalog entry. *)
Definition fromCatalog (v : Vegetable) : Prop :=
  exists d, In d (map snd VEGETABLE_DATABASE) /\ v = spread (id v) (quantity v) d.

(** ** A reader for one exported line

    Not part of the page: the standard reading of a comma-separated line
    with double-quoted fields, used to show that [csvLine] loses nothing. *)

Inductive Mode : Type := FieldStart | InPlain | InQuoted | QuoteSeen.

Definition snoc (s : string) (c : ascii) : string := (s ++ String c EmptyString)%string.

Fixpoint readLine (m : Mode) (cur s : string) : list string :=
  match s with
  | EmptyString => [cur]
  | String c rest =>
      match m with
      | FieldStart =>
          if Ascii.eqb c dquote then readLine InQuoted EmptyString rest
          else if Ascii.eqb c comma then EmptyString :: readLine FieldStart EmptyString rest
          else readLine InPlain (String c EmptyString) rest
      | InPlain =>
          if Ascii.eqb c comma then cur :: readLine FieldStart EmptyString rest
          else readLine InPlain (snoc cur c) rest
      | InQuoted =>
          if Ascii.eqb c dquote then readLine QuoteSeen cur rest
          else readLine InQuoted (snoc cur c) rest
      | QuoteSeen =>
          if Ascii.eqb c dquote then readLine InQuoted (snoc cur dquote) rest
          else if Ascii.eqb c comma then cur :: readLine FieldStart EmptyString rest
          else readLine InPlain (snoc cur c) rest
      end
  end.

(** What follows a field on a line: nothing, or a comma and more. *)
Definition afterField (t : string) : Prop :=
  t = EmptyString \/ exists t', t = String comma t'.

(** The reading once a field [cur] is complete and [t] follows. *)
Definition closeField (cur t : string) : list string :=
  match t with
  | EmptyString => [cur]
  | String _ t' => cur :: readLine FieldStart EmptyString t'
  end.

(** The items of a load under one temperature key, in load order. *)
Definition underKey (k : string) (vegetables : list Vegetable) : list Vegetable :=
  filter (fun v => String.eqb (tempKey v) k) vegetables.

(** The invariant of the grouping loop after the items [seen]. *)
Definition groupedAs (groups : list (string * list Vegetable)) (seen : list Vegetable) : Prop :=
  NoDup (map fst groups)
  /\ (forall k members, In (k, members) groups ->
        members = underKey k seen /\ members <> [])
  /\ (forall v, In v seen -> In (tempKey v) (map fst groups)).

(** * Load model: quantities stay positive *)

Lemma updateQuantity_positive target change vs :
  allPositive (updateQuantity target change vs).
Proof.
  unfold allPositive, updateQuantity.
  apply Forall_forall; intros v Hv.
  apply filter_In in Hv; destruct Hv as [_ Hq].
  apply Z.ltb_lt in Hq; lia.
Qed.

Lemma addVegetable_cases sel newId vs :
  addVegetable sel newId vs = vs
  \/ exists v, quantity v = 1 /\ id v = newId /\ addVegetable sel newId vs = vs ++ [v].
Proof.
  unfold addVegetable.
  destruct (String.eqb sel "" || existsb _ vs); [now left|].
  destruct (lookup sel VEGETABLE_DATABASE) as [d|]; [right|now left].
  exists (spread newId 1 d); auto.
Qed.

Lemma updateQuantity_app target change l1 l2 :
  updateQuantity target change (l1 ++ l2)
  = updateQuantity target change l1 ++ updateQuantity target change l2.
Proof. unfold updateQuantity. now rewrite map_app, filter_app. Qed.

Lemma updateQuantity_drops target change v :
  id v = target -> quantity v + change <= 0 -> updateQuantity target change [v] = [].
Proof.
  intros Hid Hq. unfold updateQuantity, bump; simpl.
  rewrite Hid, String.eqb_refl; simpl.
  replace (Z.max 0 (quantity v + change)) with 0 by lia.
  reflexivity.
Qed.

(** C6: from a load model whose quantities are all at least 1, [addVegetable]
    (which either leaves the model alone or appends one item of quantity 1)
    and [updateQuantity] (for any change, so for +1 and -1) give a model
    whose quantities are all at least 1 again; an item of the target id whose
    quantity would drop to 0 or below is removed, the rest of the model being
    processed as if it were not there. *)
Theorem quantity_invariant (vs : list Vegetable) :
  allPositive vs ->
  (forall sel newId,
      allPositive (addVegetable sel newId vs)
      /\ (addVegetable sel newId vs = vs
          \/ exists v, quantity v = 1 /\ addVegetable sel newId vs = vs ++ [v]))
  /\ (forall target change, allPositive (updateQuantity target change vs))
  /\ (forall target change pre v post,
         vs = pre ++ v :: post -> id v = target -> quantity v + change <= 0 ->
         updateQuantity target change vs
         = updateQuantity target change pre ++ updateQuantity target change post).
Proof.
  intros Hpos. split; [|split].
  - intros sel newId.
    destruct (addVegetable_cases sel newId vs) as [E | (v & Hq & _ & E)].
    + rewrite E. split; [assumption | now left].
    + rewrite E. split.
      * apply Forall_app; split; [assumption|].
        constructor; [lia | constructor].
      * right. now exists v.
  - intros. apply updateQuantity_positive.
  - intros target change pre v post -> Hid Hq.
    change (v :: post) with ([v] ++ post).
    rewrite !updateQuantity_app.
    now rewrite (updateQuantity_drops target change v Hid Hq).
Qed.

Lemma quantity_invariant_witness :
  allPositive (updateQuantity "id1" (-1) onionsPotatoes)
  /\ allPositive (addVegetable "Okra" "id9" onionsPotatoes).
Proof.
  assert (H : allPositive onionsPotatoes).
  { repeat constructor; simpl; lia. }
  split.
  - apply (proj1 (proj2 (quantity_invariant onionsPotatoes H))).
  - apply (proj1 (quantity_invariant onionsPotatoes H)).
Defined.

(** * Load model: the frame of [updateQuantity] *)

Lemma bump_other target change v :
  isTarget target v = false -> bump target change v = v.
Proof. unfold bump, isTarget. now intros ->. Qed.

Lemma bump_id target change v : id (bump target change v) = id v.
Proof. unfold bump. now destruct (String.eqb (id v) target). Qed.

Lemma bump_keeps target change v :
  1 <= quantity v ->
  (0 <? quantity (bump target change v)) = survives target change v.
Proof.
  intros Hq. unfold survives, isTarget, bump.
  destruct (String.eqb (id v) target); simpl.
  - destruct (0 <? quantity v + change) eqn:E.
    + apply Z.ltb_lt in E. apply Z.ltb_lt. lia.
    + apply Z.ltb_ge in E. apply Z.ltb_ge. lia.
  - apply Z.ltb_lt. lia.
Qed.

Lemma updateQuantity_shape target change vs :
  allPositive vs ->
  updateQuantity target change vs
  = map (bump target change) (filter (survives target change) vs).
Proof.
  unfold updateQuantity.
  induction 1 as [|v vs Hv _ IH]; simpl; [reflexivity|].
  rewrite (bump_keeps target change v Hv).
  destruct (survives target change v); simpl; now rewrite IH.
Qed.

(** C10: on a load model whose quantities are all at least 1,
    [updateQuantity target change] keeps the items of every other id exactly
    as they were and in the same order; the result lists the surviving items
    in their original order, each one untouched unless it has the target id;
    and when no item has the target id the model is returned as it was. *)
Theorem updateQuantity_frame (vs : list Vegetable) (target : string) (change : Z) :
  allPositive vs ->
  filter (fun v => negb (isTarget target v)) (updateQuantity target change vs)
  = filter (fun v => negb (isTarget target v)) vs
  /\ updateQuantity target change vs
     = map (bump target change) (filter (survives target change) vs)
  /\ (forall v, isTarget target v = false -> bump target change v = v)
  /\ ((forall v, In v vs -> id v <> target) -> updateQuantity target change vs = vs).
Proof.
  intros Hpos. split; [|split; [|split]].
  - rewrite (updateQuantity_shape target change vs Hpos).
    clear Hpos. induction vs as [|v vs IH]; simpl; [reflexivity|].
    unfold survives at 1.
    destruct (isTarget target v) eqn:Ht; simpl.
    + destruct (0 <? quantity v + change); simpl; [|exact IH].
      unfold isTarget at 1. rewrite bump_id. fold (isTarget target v).
      rewrite Ht; simpl. exact IH.
    + rewrite (bump_other target change v Ht), Ht; simpl. now rewrite IH.
  - now apply updateQuantity_shape.
  - intros v. apply bump_other.
  - intros Hno. rewrite (updateQuantity_shape target change vs Hpos).
    clear Hpos. induction vs as [|v vs IH]; simpl; [reflexivity|].
    assert (Ht : isTarget target v = false).
    { unfold isTarget. apply String.eqb_neq. apply Hno. now left. }
    unfold survives at 1. rewrite Ht; simpl.
    rewrite (bump_other target change v Ht).
    f_equal. apply IH. intros w Hw. apply Hno. now right.
Qed.

Lemma updateQuantity_frame_witness :
  updateQuantity "nobody" (-1) onionsPotatoes = onionsPotatoes.
Proof.
  assert (H : allPositive onionsPotatoes).
  { repeat constructor; simpl; lia. }
  apply (proj2 (proj2 (proj2 (updateQuantity_frame onionsPotatoes "nobody" (-1) H)))).
  intros v [<- | [<- | []]]; discriminate.
Defined.

(** * Truck count *)

Lemma ceilDiv_spec a b :
  0 < b -> (ceilDiv a b - 1) * b < a <= ceilDiv a b * b.
Proof.
  intros Hb. unfold ceilDiv.
  pose proof (Qle_ceiling (inject_Z a / inject_Z b)) as Hle.
  pose proof (Qceiling_lt (inject_Z a / inject_Z b)) as Hlt.
  set (c := Qceiling (inject_Z a / inject_Z b)) in *.
  destruct b as [|p|p]; try lia.
  unfold Qle, Qlt, Qdiv, Qmult, Qinv, inject_Z in Hle, Hlt; simpl in Hle, Hlt.
  lia.
Qed.

Lemma sum_from acc vs :
  fold_left (fun sum veg => sum + quantity veg) vs acc
  = acc + fold_right (fun veg sum => quantity veg + sum) 0 vs.
Proof.
  revert acc. induction vs as [|v vs IH]; intros acc; simpl; [lia|].
  rewrite IH. lia.
Qed.

Lemma capacity_positive s : 0 < capacityBySize s.
Proof. destruct s; simpl; lia. Qed.




(** * Aggregate compatibility status *)

Lemma ethyleneConflict_sym a b : ethyleneConflict a b = ethyleneConflict b a.
Proof. unfold ethyleneConflict. apply orb_comm. Qed.

Lemma quickCheck_spec vs : quickCheck vs = true <-> ethylenePair vs.
Proof.
  induction vs as [|v vs IH]; simpl.
  - split; [discriminate|].
    intros (i & j & a & b & _ & Hi & _). destruct i; discriminate.
  - rewrite orb_true_iff, existsb_exists, IH. split.
    + intros [(b & Hb & Hc) | (i & j & a & b & Hij & Hi & Hj & Hc)].
      * apply In_nth_error in Hb. destruct Hb as [j Hj].
        exists 0%nat, (S j), v, b. repeat split; auto; lia.
      * exists (S i), (S j), a, b. repeat split; auto; lia.
    + intros (i & j & a & b & Hij & Hi & Hj & Hc).
      destruct j as [|j]; [lia|]. simpl in Hj.
      destruct i as [|i]; simpl in Hi.
      * left. injection Hi as <-. exists b. split; [|assumption].
        eapply nth_error_In; eassumption.
      * right. exists i, j, a, b. repeat split; auto; lia.
Qed.

(** C4: the aggregate status is never "incompatible" for a load model of 0
    or 1 items (it is "neutral"); for 2 or more items it is "incompatible"
    exactly when some pair of items has an ethylene conflict, and it is
    "compatible" otherwise, whatever the temperature ranges are -- so a pair
    whose only conflict is a temperature mismatch never makes it
    "incompatible". *)
Theorem aggregate_status (vs : list Vegetable) :
  ((List.length vs < 2)%nat ->
     status (getCompatibilityStatus vs) = neutral
     /\ status (getCompatibilityStatus vs) <> incompatible)
  /\ ((2 <= List.length vs)%nat ->
        (status (getCompatibilityStatus vs) = incompatible <-> ethylenePair vs)
        /\ (~ ethylenePair vs -> status (getCompatibilityStatus vs) = compatible)).
Proof.
  unfold getCompatibilityStatus. split; intros Hlen.
  - apply Nat.ltb_lt in Hlen. rewrite Hlen. simpl. split; [reflexivity | discriminate].
  - apply Nat.ltb_ge in Hlen. rewrite Hlen.
    pose proof (quickCheck_spec vs) as Hq.
    destruct (quickCheck vs); simpl; split.
    + split; [intros _; now apply Hq | reflexivity].
    + intros Hn. exfalso. apply Hn. now apply Hq.
    + split; [discriminate|]. intros Hp. apply Hq in Hp. discriminate.
    + reflexivity.
Qed.

Lemma aggregate_status_witness :
  status (getCompatibilityStatus tomatoesEggplant) = incompatible
  /\ status (getCompatibilityStatus cauliflowerOnly) = neutral.
Proof.
  split.
  - destruct (proj2 (aggregate_status tomatoesEggplant)) as [Hiff _].
    + vm_compute. lia.
    + apply Hiff.
      exists 0%nat, 1%nat. do 2 eexists. repeat split; try reflexivity. lia.
  - apply (proj1 (aggregate_status cauliflowerOnly)). vm_compute. lia.
Defined.

(** Tomatoes (12-15) with Cabbage (0-2): the ranges do not overlap, no
    ethylene conflict; the badge says "compatible". *)
Example temperature_only_conflict :
  temperaturePair tomatoesCabbage
  /\ status (getCompatibilityStatus tomatoesCabbage) = compatible.
Proof.
  split; [|reflexivity].
  exists 0%nat, 1%nat. do 2 eexists. repeat split; try reflexivity. lia.
Qed.

(** * Empty load model *)

(** C8: on the empty load model the impact estimate is the all-zero
    structure (for any unit cost and any rounding), the transport
    recommendation is the fixed default (10-15 degrees, ventilated, humidity
    "85-90%", no separation) and the layout has no zones; each function is
    total, so none fails. *)
Theorem empty_load_defaults :
  (forall rnd unitCost,
      calculateImpact rnd [] unitCost
      = mkImpact (mkRegime 0 0 0) (mkRegime 0 0 0) (mkSavings 0 0 0))
  /\ getTransportRecommendation [] = mkRec t_ventilated (Temp.mk 10 15) "85-90%" true []
  /\ optimizeLoading [] = [].
Proof. repeat split. Qed.

(** * Transport recommendation: the temperature envelope *)

Lemma Math_max_spec x xs : isMaxOf (Math_max x xs) (x :: xs).
Proof.
  unfold Math_max, isMaxOf. revert x.
  induction xs as [|y ys IH]; intros x; simpl.
  - split; [now left|]. intros z [<- | []]. lia.
  - destruct (IH (Z.max x y)) as [Hin Hub]. split.
    + destruct Hin as [E | Hin]; [|now right; right].
      rewrite <- E. destruct (Z.max_spec x y) as [[_ ->] | [_ ->]]; auto.
    + intros z Hz.
      assert (Hxy : Z.max x y <= fold_left Z.max ys (Z.max x y)) by (apply Hub; now left).
      destruct Hz as [<- | [<- | Hz]]; [lia | lia |].
      apply Hub. now right.
Qed.

Lemma Math_min_spec x xs : isMinOf (Math_min x xs) (x :: xs).
Proof.
  unfold Math_min, isMinOf. revert x.
  induction xs as [|y ys IH]; intros x; simpl.
  - split; [now left|]. intros z [<- | []]. lia.
  - destruct (IH (Z.min x y)) as [Hin Hlb]. split.
    + destruct Hin as [E | Hin]; [|now right; right].
      rewrite <- E. destruct (Z.min_spec x y) as [[_ ->] | [_ ->]]; auto.
    + intros z Hz.
      assert (Hxy : fold_left Z.min ys (Z.min x y) <= Z.min x y) by (apply Hlb; now left).
      destruct Hz as [<- | [<- | Hz]]; [lia | lia |].
      apply Hlb. now right.
Qed.

Lemma transport_temperature vs :
  vs <> [] ->
  exists lo hi,
    isMaxOf lo (tempMins vs) /\ isMinOf hi (tempMaxs vs)
    /\ temperature (getTransportRecommendation vs)
       = Temp.mk (Z.max 0 lo) (if hi >? lo then hi else lo + 2).
Proof.
  destruct vs as [|v rest]; [congruence | intros _].
  exists (Math_max (Temp.min (idealTemp v)) (tempMins rest)),
         (Math_min (Temp.max (idealTemp v)) (tempMaxs rest)).
  split; [apply Math_max_spec | split; [apply Math_min_spec | reflexivity]].
Qed.

(** C2 (as amended): for a non-empty load model, with lo the largest
    idealTemp.min and hi the smallest idealTemp.max over the items, the
    returned minimum is max(0, lo) and the returned maximum is hi when
    hi > lo and lo + 2 otherwise, that is, when the range is inverted or
    reduced to a single point (hi <= lo). *)
Theorem transport_envelope (vs : list Vegetable) :
  vs <> [] ->
  exists lo hi,
    isMaxOf lo (tempMins vs) /\ isMinOf hi (tempMaxs vs)
    /\ Temp.min (temperature (getTransportRecommendation vs)) = Z.max 0 lo
    /\ (lo < hi -> Temp.max (temperature (getTransportRecommendation vs)) = hi)
    /\ (hi <= lo -> Temp.max (temperature (getTransportRecommendation vs)) = lo + 2).
Proof.
  intros Hne. destruct (transport_temperature vs Hne) as (lo & hi & Hlo & Hhi & E).
  exists lo, hi. rewrite E; simpl.
  split; [assumption | split; [assumption | split; [reflexivity|]]].
  split; intros H.
  - apply Z.gtb_lt in H. now rewrite H.
  - destruct (hi >? lo) eqn:G; [|reflexivity].
    apply Z.gtb_lt in G. lia.
Qed.

Lemma transport_envelope_witness :
  exists lo hi,
    isMaxOf lo (tempMins tomatoesEggplant) /\ isMinOf hi (tempMaxs tomatoesEggplant)
    /\ Temp.min (temperature (getTransportRecommendation tomatoesEggplant)) = Z.max 0 lo
    /\ (lo < hi -> Temp.max (temperature (getTransportRecommendation tomatoesEggplant)) = hi)
    /\ (hi <= lo ->
        Temp.max (temperature (getTransportRecommendation tomatoesEggplant)) = lo + 2).
Proof. apply (transport_envelope tomatoesEggplant). discriminate. Defined.

(** C2 as stated fails on Onions (0-4) with Potatoes (4-8): the largest
    minimum and the smallest maximum are both 4, so the range is not
    inverted, yet the returned maximum is 6 and not 4.  It also fails on an
    item with a range below zero, whose returned minimum is 0. *)
Lemma transport_envelope_touching_ranges :
  (isMaxOf 4 (tempMins onionsPotatoes) /\ isMinOf 4 (tempMaxs onionsPotatoes)
   /\ ~ 4 < 4
   /\ Temp.max (temperature (getTransportRecommendation onionsPotatoes)) = 6
   /\ Temp.max (temperature (getTransportRecommendation onionsPotatoes)) <> 4)
  /\ (isMaxOf (-20) (tempMins [frozenPeas])
      /\ Temp.min (temperature (getTransportRecommendation [frozenPeas])) <> -20).
Proof.
  unfold isMaxOf, isMinOf. vm_compute.
  repeat split; try discriminate; try (intros H; discriminate H); auto.
  - intros z [<- | [<- | []]]; discriminate.
  - intros z [<- | [<- | []]]; discriminate.
  - intros z [<- | []]; discriminate.
Qed.

(** C9: for a non-empty load model the returned minimum is max(0, lo), lo
    being the largest idealTemp.min over the items; it is never negative,
    and it is 0 when every item's idealTemp.min is below 0. *)
Theorem transport_minimum_clamped (vs : list Vegetable) :
  vs <> [] ->
  exists lo,
    isMaxOf lo (tempMins vs)
    /\ Temp.min (temperature (getTransportRecommendation vs)) = Z.max 0 lo
    /\ 0 <= Temp.min (temperature (getTransportRecommendation vs))
    /\ ((forall v, In v vs -> Temp.min (idealTemp v) < 0) ->
        Temp.min (temperature (getTransportRecommendation vs)) = 0).
Proof.
  intros Hne. destruct (transport_temperature vs Hne) as (lo & hi & Hlo & _ & E).
  exists lo. rewrite E; simpl.
  split; [assumption | split; [reflexivity | split; [lia|]]].
  intros Hneg. destruct Hlo as [Hin _].
  apply in_map_iff in Hin. destruct Hin as (v & <- & Hv).
  specialize (Hneg v Hv). lia.
Qed.

Lemma transport_minimum_clamped_witness :
  Temp.min (temperature (getTransportRecommendation [frozenPeas])) = 0.
Proof.
  destruct (transport_minimum_clamped [frozenPeas]) as (lo & _ & _ & _ & H).
  - discriminate.
  - apply H. intros v [<- | []]. reflexivity.
Defined.

(** * Impact estimate *)

Section Rounding.

Variable rnd : Q -> Q.

Hypothesis rnd_mono : forall a b : Q, (a <= b)%Q -> (rnd a <= rnd b)%Q.
Hypothesis rnd_idem : forall a : Q, (rnd (rnd a) == rnd a)%Q.
Hypothesis rnd_zero : (rnd 0 == 0)%Q.

Open Scope Q_scope.

Lemma rnd_proper a b : a == b -> rnd a == rnd b.
Proof.
  intros E. apply Qle_antisym; apply rnd_mono; rewrite E; apply Qle_refl.
Qed.

Lemma lit_nonneg q : 0 <= q -> 0 <= lit rnd q.
Proof.
  intros H. unfold lit. rewrite <- rnd_zero. now apply rnd_mono.
Qed.

Lemma lit_mono p q : p <= q -> lit rnd p <= lit rnd q.
Proof. apply rnd_mono. Qed.

Lemma add_mono a b c d : a <= c -> b <= d -> add rnd a b <= add rnd c d.
Proof. intros H1 H2. apply rnd_mono. lra. Qed.

(** Adding a non-negative number to a representable one does not go below it. *)
Lemma add_grows a b : rnd a == a -> 0 <= b -> a <= add rnd a b.
Proof.
  intros Ha Hb. rewrite <- Ha at 1. apply rnd_mono. lra.
Qed.

Lemma add_representable a b : rnd (add rnd a b) == add rnd a b.
Proof. apply rnd_idem. Qed.

Lemma mul_mono_r q c d : 0 <= q -> c <= d -> mul rnd q c <= mul rnd q d.
Proof.
  intros Hq Hcd. apply rnd_mono.
  rewrite (Qmult_comm q c), (Qmult_comm q d).
  now apply Qmult_le_compat_r.
Qed.

Lemma wasteMultiplier_lower vs v : lit rnd 0.25 <= wasteMultiplier rnd vs v.
Proof.
  unfold wasteMultiplier.
  assert (H20 : 0 <= lit rnd 0.20) by (apply lit_nonneg; unfold Qle; simpl; lia).
  assert (H15 : 0 <= lit rnd 0.15) by (apply lit_nonneg; unfold Qle; simpl; lia).
  assert (R25 : rnd (lit rnd 0.25) == lit rnd 0.25) by apply rnd_idem.
  destruct (hasEthyleneIssues vs v), (hasTemperatureIssues vs v).
  - eapply Qle_trans; [apply (add_grows _ _ R25 H20)|].
    apply add_grows; [apply add_representable | assumption].
  - now apply add_grows.
  - now apply add_grows.
  - apply Qle_refl.
Qed.

Lemma capped_multiplier_bounds vs v :
  lit rnd 0.10 <= Qmin (wasteMultiplier rnd vs v) (lit rnd 0.70)
  /\ Qmin (wasteMultiplier rnd vs v) (lit rnd 0.70) <= lit rnd 0.70.
Proof.
  split; [|apply Q.le_min_r].
  apply Q.min_glb.
  - eapply Qle_trans; [|apply wasteMultiplier_lower].
    apply lit_mono. unfold Qle; simpl; lia.
  - apply lit_mono. unfold Qle; simpl; lia.
Qed.

Lemma waste_fold_le vs l a b :
  Forall (fun v => (0 <= quantity v)%Z) l -> a <= b ->
  fold_left (fun total veg => add rnd total (mul rnd (num (quantity veg)) (lit rnd 0.10))) l a
  <= fold_left (fun total veg =>
                  add rnd total (mul rnd (num (quantity veg))
                                     (Qmin (wasteMultiplier rnd vs veg) (lit rnd 0.70)))) l b.
Proof.
  intros Hq. revert a b.
  induction Hq as [|v l Hv _ IH]; intros a b Hab; simpl; [assumption|].
  apply IH. apply add_mono; [assumption|].
  apply mul_mono_r.
  - unfold num, Qle; simpl. lia.
  - apply capped_multiplier_bounds.
Qed.

(** C5: for a non-empty load model whose quantities are all non-negative,
    the optimized waste units (the sum of quantity x 0.10) do not exceed the
    baseline waste units (the sum of quantity x min(multiplier, 0.70)), each
    capped per-item multiplier lying between 0.10 and 0.70 and each
    uncapped one being at least 0.25. *)
Theorem optimized_waste_le_baseline (vs : list Vegetable) :
  vs <> [] ->
  Forall (fun v => (0 <= quantity v)%Z) vs ->
  optimizedWaste rnd vs <= baselineWaste rnd vs
  /\ forall v, lit rnd 0.25 <= wasteMultiplier rnd vs v
              /\ lit rnd 0.10 <= Qmin (wasteMultiplier rnd vs v) (lit rnd 0.70) <= lit rnd 0.70.
Proof.
  intros _ Hq. split.
  - unfold optimizedWaste, baselineWaste.
    apply waste_fold_le; [assumption | apply Qle_refl].
  - intros v. split; [apply wasteMultiplier_lower | apply capped_multiplier_bounds].
Qed.

(** C3 (as amended): for every non-empty load model the reported baseline
    shelf life is max(1, 0.7 x average), hence at least one day, and the
    optimized one is 1.2 x average; whenever 0.7 x average is at least one
    day, the reported shelf-life extension is the optimized figure minus the
    baseline figure. *)
Theorem shelf_life_extension (vs : list Vegetable) (unitCost : Q) :
  vs <> [] ->
  let r := calculateImpact rnd vs unitCost in
  shelfLifeDays (withoutShelfLife r) == Qmax 1 (mul rnd (avgShelfLife rnd vs) (lit rnd 0.7))
  /\ 1 <= shelfLifeDays (withoutShelfLife r)
  /\ shelfLifeDays (withShelfLife r) == mul rnd (avgShelfLife rnd vs) (lit rnd 1.2)
  /\ (1 <= mul rnd (avgShelfLife rnd vs) (lit rnd 0.7) ->
      shelfLifeExtension (savings r)
      == sub rnd (shelfLifeDays (withShelfLife r)) (shelfLifeDays (withoutShelfLife r))).
Proof.
  intros Hne.
  destruct vs as [|v rest]; [congruence|].
  cbv zeta. unfold calculateImpact. cbn [withoutShelfLife withShelfLife savings
    shelfLifeDays shelfLifeExtension].
  split; [reflexivity | split; [apply Q.le_max_l | split; [reflexivity|]]].
  intros Hfloor. unfold sub. apply rnd_proper.
  rewrite (Q.max_r _ _ Hfloor). reflexivity.
Qed.

End Rounding.

Lemma exact_mono : forall a b : Q, (a <= b)%Q -> (exact a <= exact b)%Q.
Proof. intros a b H. exact H. Qed.

Lemma exact_idem : forall a : Q, (exact (exact a) == exact a)%Q.
Proof. intros a. apply Qeq_refl. Qed.

Lemma exact_zero : (exact 0 == 0)%Q.
Proof. apply Qeq_refl. Qed.

Lemma optimized_waste_le_baseline_witness :
  (optimizedWaste exact tomatoesEggplant <= baselineWaste exact tomatoesEggplant)%Q.
Proof.
  apply (optimized_waste_le_baseline exact exact_mono exact_idem exact_zero tomatoesEggplant).
  - discriminate.
  - repeat constructor; discriminate.
Defined.

Lemma shelf_life_extension_witness :
  (shelfLifeExtension (savings (calculateImpact exact cauliflowerOnly 100))
   == sub exact (shelfLifeDays (withShelfLife (calculateImpact exact cauliflowerOnly 100)))
                (shelfLifeDays (withoutShelfLife (calculateImpact exact cauliflowerOnly 100))))%Q.
Proof.
  refine (proj2 (proj2 (proj2
            (shelf_life_extension exact exact_mono cauliflowerOnly 100 _))) _).
  - discriminate.
  - vm_compute. discriminate.
Defined.

(** C3 as stated fails on a load of Cauliflower alone (shelf life 10): the
    baseline figure is 7 days and the optimized one 12, the reported
    extension is 5, and 7 - 12 is not 5. *)
Lemma shelf_life_extension_sign :
  let r := calculateImpact exact cauliflowerOnly 100 in
  (shelfLifeDays (withoutShelfLife r) == 7
   /\ shelfLifeDays (withShelfLife r) == 12
   /\ shelfLifeExtension (savings r) == 5
   /\ ~ shelfLifeExtension (savings r)
         == shelfLifeDays (withoutShelfLife r) - shelfLifeDays (withShelfLife r))%Q.
Proof. vm_compute. repeat split; discriminate. Qed.

(** Below one day the reported baseline is floored and the extension is
    not: for a single item of shelf life 1 the figures are 1 and 1.2 days
    and the extension reads 0.5. *)
Example shelf_life_floor :
  let r := calculateImpact exact [sprouts] 100 in
  (shelfLifeDays (withoutShelfLife r) == 1
   /\ shelfLifeDays (withShelfLife r) == 1.2
   /\ shelfLifeExtension (savings r) == 0.5)%Q.
Proof. vm_compute. repeat split. Qed.

(** * Layout heuristic *)

Lemma pushZone_placed st members tempRange pos colour :
  placed (fst (pushZone st members tempRange pos colour)) = placed (fst st) ++ members.
Proof.
  destruct st as [zones zoneIndex]. unfold pushZone, placed; simpl.
  rewrite map_app, concat_app; simpl. now rewrite app_nil_r.
Qed.

Lemma len_zero {A : Type} (l : list A) : (0 <? len l) = false -> l = [].
Proof.
  unfold len. intros H. apply Z.ltb_ge in H.
  destruct l; [reflexivity | simpl in H; lia].
Qed.

(** Without dual-role items, producers, sensitive items and the others
    split a band three ways. *)
Lemma three_way_split veggies :
  (forall v, In v veggies -> dualRole v = false) ->
  Permutation
    (filter (fun v => isHigh (ethyleneProduction v)) veggies
     ++ filter (fun v => isHigh (ethyleneSensitivity v)) veggies
     ++ filter (fun v => negb (isHigh (ethyleneProduction v))
                         && negb (isHigh (ethyleneSensitivity v))) veggies)
    veggies.
Proof.
  induction veggies as [|v l IH]; intros Hno; simpl; [constructor|].
  assert (Hv : dualRole v = false) by (apply Hno; now left).
  assert (Hl : forall w, In w l -> dualRole w = false) by (intros w Hw; apply Hno; now right).
  specialize (IH Hl). unfold dualRole in Hv.
  destruct (isHigh (ethyleneProduction v)), (isHigh (ethyleneSensitivity v));
    simpl in Hv |- *; try discriminate.
  - now constructor.
  - symmetry. apply Permutation_cons_app. now symmetry.
  - symmetry. rewrite app_assoc. apply Permutation_cons_app.
    rewrite <- app_assoc. now symmetry.
Qed.

Lemma zoneStep_placed st band :
  (forall v, In v (snd band) -> dualRole v = false) ->
  Permutation (placed (fst (zoneStep st band))) (placed (fst st) ++ snd band).
Proof.
  destruct band as [tempRange veggies]; simpl. intros Hno. unfold zoneStep.
  destruct ((0 <? len (filter (fun v => isHigh (ethyleneProduction v)) veggies))
            && (0 <? len (filter (fun v => isHigh (ethyleneSensitivity v)) veggies))).
  - destruct (0 <? len (filter _ veggies)) eqn:Ho.
    + rewrite !pushZone_placed, <- !app_assoc.
      apply Permutation_app_head. now apply three_way_split.
    + rewrite !pushZone_placed, <- !app_assoc.
      apply Permutation_app_head.
      pose proof (three_way_split veggies Hno) as H3.
      rewrite (len_zero _ Ho), app_nil_r in H3. exact H3.
  - now rewrite pushZone_placed.
Qed.

Lemma zoneSteps_placed bands st :
  (forall v, In v (List.concat (map snd bands)) -> dualRole v = false) ->
  Permutation (placed (fst (fold_left zoneStep bands st)))
              (placed (fst st) ++ List.concat (map snd bands)).
Proof.
  revert st. induction bands as [|band bands IH]; intros st Hno; simpl.
  - now rewrite app_nil_r.
  - simpl in Hno. rewrite IH.
    + rewrite app_assoc. apply Permutation_app_tail.
      apply zoneStep_placed. intros v Hv. apply Hno, in_or_app. now left.
    + intros v Hv. apply Hno, in_or_app. now right.
Qed.

Lemma pushTo_members k v groups :
  Permutation (List.concat (map snd (pushTo k v groups)))
              (List.concat (map snd groups) ++ [v]).
Proof.
  induction groups as [|[k' members] rest IH]; simpl; [reflexivity|].
  destruct (String.eqb k' k); simpl.
  - rewrite <- !app_assoc. apply Permutation_app_head, Permutation_app_comm.
  - rewrite <- app_assoc. now apply Permutation_app_head.
Qed.

Lemma groups_members vs groups :
  Permutation
    (List.concat (map snd (fold_left (fun groups veg => pushTo (tempKey veg) veg groups)
                                     vs groups)))
    (List.concat (map snd groups) ++ vs).
Proof.
  revert groups. induction vs as [|v vs IH]; intros groups; simpl.
  - now rewrite app_nil_r.
  - rewrite IH, pushTo_members, <- app_assoc. reflexivity.
Qed.

(** The layout places every item exactly once as long as no item is both
    a high producer and highly sensitive. *)
Theorem layout_partition_without_dual_role (vs : list Vegetable) :
  (forall v, In v vs -> dualRole v = false) ->
  Permutation (placed (optimizeLoading vs)) vs.
Proof.
  intros Hno. destruct vs as [|v0 rest] eqn:E; [constructor|].
  rewrite <- E in *. clear E.
  assert (Hg : Permutation (List.concat (map snd (temperatureGroups vs))) vs).
  { unfold temperatureGroups. now rewrite groups_members. }
  unfold optimizeLoading. destruct vs as [|v1 rest1]; [constructor|].
  rewrite zoneSteps_placed.
  - exact Hg.
  - intros v Hv. apply Hno. eapply Permutation_in; eassumption.
Qed.

(** C1, at the failing input: a load holding one item that is both a high
    producer and highly sensitive gets two zones, each holding that item, so
    the item is placed twice and the producer zone and the sensitive zone
    are not disjoint. *)
Theorem layout_duplicates_dual_role_item :
  dualRole bananas = true
  /\ map zone_vegetables (optimizeLoading [bananas]) = [[bananas]; [bananas]]
  /\ placed (optimizeLoading [bananas]) = [bananas; bananas]
  /\ ~ Permutation (placed (optimizeLoading [bananas])) [bananas].
Proof.
  split; [reflexivity | split; [reflexivity | split; [reflexivity|]]].
  intros H. apply Permutation_length in H. discriminate H.
Qed.


(** * Pairwise analysis *)

Lemma analysis_length vs :
  (2 * List.length (analyzeCompatibility vs)
   = List.length vs * (List.length vs - 1))%nat.
Proof.
  induction vs as [|v vs IH]; simpl; [reflexivity|].
  rewrite length_app, length_map. nia.
Qed.

(** The analysis of n items has n(n-1)/2 verdicts; none for 0 or 1 items. *)
Theorem analysis_count (vs : list Vegetable) :
  List.length (analyzeCompatibility vs)
  = (List.length vs * (List.length vs - 1) / 2)%nat
  /\ ((List.length vs < 2)%nat -> analyzeCompatibility vs = []).
Proof.
  split.
  - rewrite <- analysis_length, Nat.mul_comm. now rewrite Nat.div_mul.
  - destruct vs as [|a [|b rest]]; simpl; try reflexivity. lia.
Qed.

Lemma analysis_pairs vs r :
  In r (analyzeCompatibility vs)
  <-> exists i j a b, (i < j)%nat /\ nth_error vs i = Some a
                      /\ nth_error vs j = Some b /\ r = verdict a b.
Proof.
  induction vs as [|v vs IH]; simpl.
  - split; [intros [] | intros (i & j & a & b & _ & Hi & _); destruct i; discriminate].
  - rewrite in_app_iff, in_map_iff, IH. split.
    + intros [(b & <- & Hb) | (i & j & a & b & Hij & Hi & Hj & ->)].
      * apply In_nth_error in Hb. destruct Hb as [j Hj].
        exists 0%nat, (S j), v, b. repeat split; auto; lia.
      * exists (S i), (S j), a, b. repeat split; auto; lia.
    + intros (i & j & a & b & Hij & Hi & Hj & ->).
      destruct j as [|j]; [lia|]. simpl in Hj.
      destruct i as [|i]; simpl in Hi.
      * left. injection Hi as <-. exists b. split; [reflexivity|].
        eapply nth_error_In; eassumption.
      * right. exists i, j, a, b. repeat split; auto; lia.
Qed.

Lemma verdict_severity a b :
  (Result.severity (verdict a b) = high <-> ethyleneConflict a b = true)
  /\ (Result.severity (verdict a b) = medium
      <-> ethyleneConflict a b = false /\ tempConflict a b = true)
  /\ (Result.severity (verdict a b) = low <-> Result.compatible (verdict a b) = true)
  /\ Result.compatible (verdict a b) = negb (ethyleneConflict a b || tempConflict a b).
Proof.
  unfold verdict. fold (ethyleneConflict a b). fold (tempConflict a b).
  destruct (ethyleneConflict a b), (tempConflict a b); simpl;
    repeat split; intros; try discriminate; try reflexivity;
    match goal with H : _ /\ _ |- _ => destruct H; discriminate end.
Qed.

Lemma verdict_pair a b : Result.pair (verdict a b) = (name a ++ " + " ++ name b)%string.
Proof.
  unfold verdict. fold (ethyleneConflict a b). fold (tempConflict a b).
  destruct (ethyleneConflict a b), (tempConflict a b); reflexivity.
Qed.

(** The verdicts are exactly those of the position pairs i < j, and each
    verdict follows the table: compatible when the pair has neither
    conflict, severity high exactly for an ethylene conflict, medium exactly
    for a temperature conflict without an ethylene one, low otherwise. *)
Theorem analysis_verdicts (vs : list Vegetable) (r : Result.t) :
  In r (analyzeCompatibility vs)
  <-> exists i j a b,
        (i < j)%nat /\ nth_error vs i = Some a /\ nth_error vs j = Some b
        /\ Result.pair r = (name a ++ " + " ++ name b)%string
        /\ Result.compatible r = negb (ethyleneConflict a b || tempConflict a b)
        /\ (Result.severity r = high <-> ethyleneConflict a b = true)
        /\ (Result.severity r = medium
            <-> ethyleneConflict a b = false /\ tempConflict a b = true)
        /\ r = verdict a b.
Proof.
  rewrite analysis_pairs. split.
  - intros (i & j & a & b & Hij & Hi & Hj & ->).
    exists i, j, a, b.
    destruct (verdict_severity a b) as (H1 & H2 & _ & H4).
    split; [assumption|]. split; [assumption|]. split; [assumption|].
    split; [apply verdict_pair|]. split; [assumption|].
    split; [assumption|]. split; [assumption | reflexivity].
  - intros (i & j & a & b & Hij & Hi & Hj & _ & _ & _ & _ & E).
    exists i, j, a, b. auto.
Qed.

(** For two or more items the badge is "incompatible" exactly when some
    verdict has severity high; when the badge is "compatible", every
    incompatible verdict is a medium one with the temperature reason. *)
Theorem badge_and_analysis (vs : list Vegetable) :
  (2 <= List.length vs)%nat ->
  (status (getCompatibilityStatus vs) = incompatible
   <-> exists r, In r (analyzeCompatibility vs) /\ Result.severity r = high)
  /\ (status (getCompatibilityStatus vs) = compatible ->
      forall r, In r (analyzeCompatibility vs) -> Result.compatible r = false ->
                Result.severity r = medium
                /\ Result.reason r = "Incompatible temperature requirements").
Proof.
  intros Hlen. unfold getCompatibilityStatus.
  apply Nat.ltb_ge in Hlen. rewrite Hlen.
  assert (Hq : quickCheck vs = true
               <-> exists r, In r (analyzeCompatibility vs) /\ Result.severity r = high).
  { rewrite quickCheck_spec. split.
    - intros (i & j & a & b & Hij & Hi & Hj & Hc).
      exists (verdict a b). split.
      + apply analysis_pairs. exists i, j, a, b. auto.
      + now apply verdict_severity.
    - intros (r & Hr & Hs). apply analysis_pairs in Hr.
      destruct Hr as (i & j & a & b & Hij & Hi & Hj & ->).
      exists i, j, a, b. repeat split; auto. now apply verdict_severity. }
  destruct (quickCheck vs) eqn:Q; simpl; split.
  - split; [intros _; now apply Hq | reflexivity].
  - discriminate.
  - split; [discriminate|]. intros H. apply Hq in H. discriminate.
  - intros _ r Hr Hc. apply analysis_pairs in Hr.
    destruct Hr as (i & j & a & b & Hij & Hi & Hj & ->).
    assert (He : ethyleneConflict a b = false).
    { destruct (ethyleneConflict a b) eqn:E; [|reflexivity].
      assert (quickCheck vs = true); [|congruence].
      apply quickCheck_spec. exists i, j, a, b. auto. }
    revert Hc. unfold verdict.
    fold (ethyleneConflict a b). fold (tempConflict a b). rewrite He; simpl.
    destruct (tempConflict a b); simpl; [auto | discriminate].
Qed.

Lemma badge_and_analysis_witness :
  exists r, In r (analyzeCompatibility tomatoesEggplant) /\ Result.severity r = high.
Proof.
  apply (proj1 (badge_and_analysis tomatoesEggplant (le_n 2))). reflexivity.
Defined.

(** * Transport recommendation: type, separation, feasibility *)

Lemma filter_nonempty {A : Type} (f : A -> bool) (l : list A) :
  (0 <? List.length (filter f l))%nat = true <-> exists x, In x l /\ f x = true.
Proof.
  rewrite Nat.ltb_lt. split.
  - intros H. destruct (filter f l) as [|x r] eqn:E; [simpl in H; lia|].
    exists x. apply filter_In. rewrite E. now left.
  - intros (x & Hx & Hf).
    assert (Hin : In x (filter f l)) by (apply filter_In; auto).
    destruct (filter f l); [destruct Hin | simpl; lia].
Qed.

Lemma transport_separation vs :
  separation (getTransportRecommendation vs) <> []
  <-> (exists p, In p vs /\ isHigh (ethyleneProduction p) = true)
      /\ (exists s, In s vs /\ isHigh (ethyleneSensitivity s) = true).
Proof.
  destruct vs as [|v rest].
  - simpl. split; [congruence | intros [(p & Hp & _) _]; destruct Hp].
  - unfold getTransportRecommendation. cbn [separation].
    rewrite <- !(filter_nonempty (fun v => isHigh (_ v))).
    destruct (0 <? List.length (filter _ (v :: rest)))%nat;
      destruct (0 <? List.length (filter _ (v :: rest)))%nat; simpl; split;
      first [ intros _; split; reflexivity
            | intros _; discriminate
            | intros H; now elim H
            | intros [H1 H2]; discriminate ].
Qed.

(** Whenever the badge is "incompatible" the recommendation carries its two
    separation lines; conversely, separation lines on a load with no
    dual-role item mean the badge is "incompatible". *)
Theorem separation_and_badge (vs : list Vegetable) :
  (status (getCompatibilityStatus vs) = incompatible ->
   List.length (separation (getTransportRecommendation vs)) = 2%nat)
  /\ ((forall v, In v vs -> dualRole v = false) ->
      separation (getTransportRecommendation vs) <> [] ->
      status (getCompatibilityStatus vs) = incompatible).
Proof.
  split.
  - intros Hs.
    assert (Hp : ethylenePair vs).
    { unfold getCompatibilityStatus in Hs.
      destruct (List.length vs <? 2)%nat; [discriminate|].
      destruct (quickCheck vs) eqn:Q; [now apply quickCheck_spec | discriminate]. }
    assert (Hsep : separation (getTransportRecommendation vs) <> []).
    { apply transport_separation.
      destruct Hp as (i & j & a & b & _ & Hi & Hj & Hc).
      apply nth_error_In in Hi, Hj. unfold ethyleneConflict in Hc.
      apply orb_true_iff in Hc.
      destruct Hc as [Hc | Hc]; apply andb_true_iff in Hc; destruct Hc;
        split; eauto. }
    destruct vs as [|v rest]; [now elim Hsep|].
    revert Hsep. unfold getTransportRecommendation. cbn [separation].
    destruct (_ && _); [reflexivity | congruence].
  - intros Hno Hsep. apply transport_separation in Hsep.
    destruct Hsep as [(p & Hp & Hph) (s & Hs & Hsh)].
    assert (Hne : p <> s).
    { intros ->. specialize (Hno s Hs). unfold dualRole in Hno.
      rewrite Hph, Hsh in Hno. discriminate. }
    apply In_nth_error in Hp, Hs. destruct Hp as [i Hi], Hs as [j Hj].
    assert (Hij : i <> j) by (intros ->; congruence).
    assert (Hpair : ethylenePair vs).
    { destruct (Nat.lt_ge_cases i j) as [L | L].
      - exists i, j, p, s. repeat split; auto.
        unfold ethyleneConflict. now rewrite Hph, Hsh.
      - exists j, i, s, p. repeat split; auto; [lia|].
        unfold ethyleneConflict. rewrite Hph, Hsh. apply orb_true_r. }
    assert (Hlen : (2 <= List.length vs)%nat).
    { destruct Hpair as (i' & j' & a & b & L & _ & Hj' & _).
      assert (j' < List.length vs)%nat by (apply nth_error_Some; congruence). lia. }
    unfold getCompatibilityStatus.
    apply Nat.ltb_ge in Hlen. rewrite Hlen.
    apply quickCheck_spec in Hpair. now rewrite Hpair.
Qed.

Lemma separation_and_badge_witness :
  List.length (separation (getTransportRecommendation tomatoesEggplant)) = 2%nat
  /\ status (getCompatibilityStatus tomatoesEggplant) = incompatible.
Proof.
  split.
  - apply (proj1 (separation_and_badge tomatoesEggplant)). reflexivity.
  - apply (proj2 (separation_and_badge tomatoesEggplant)).
    + intros v [<- | [<- | []]]; reflexivity.
    + discriminate.
Defined.

Lemma in_tempMins v vs : In v vs -> In (Temp.min (idealTemp v)) (tempMins vs).
Proof. intros H. unfold tempMins. now apply in_map with (f := fun v => Temp.min (idealTemp v)). Qed.

Lemma in_tempMaxs v vs : In v vs -> In (Temp.max (idealTemp v)) (tempMaxs vs).
Proof. intros H. unfold tempMaxs. now apply in_map with (f := fun v => Temp.max (idealTemp v)). Qed.

Lemma transport_type vs :
  vs <> [] ->
  exists lo, isMaxOf lo (tempMins vs)
             /\ rec_type (getTransportRecommendation vs)
                = (if lo <=? 4 then t_refrigerated else t_controlled_atmosphere).
Proof.
  destruct vs as [|v rest]; [congruence | intros _].
  exists (Math_max (Temp.min (idealTemp v)) (tempMins rest)).
  split; [apply Math_max_spec | reflexivity].
Qed.

(** For a non-empty load the recommended type is "refrigerated" exactly
    when every item's idealTemp.min is at most 4, and
    "controlled_atmosphere" otherwise; it is never "ventilated". *)
Theorem transport_type_rule (vs : list Vegetable) :
  vs <> [] ->
  (rec_type (getTransportRecommendation vs) = t_refrigerated
   <-> forall v, In v vs -> Temp.min (idealTemp v) <= 4)
  /\ (rec_type (getTransportRecommendation vs) = t_controlled_atmosphere
      <-> exists v, In v vs /\ 4 < Temp.min (idealTemp v))
  /\ rec_type (getTransportRecommendation vs) <> t_ventilated.
Proof.
  intros Hne. destruct (transport_type vs Hne) as (lo & [Hin Hub] & ->).
  apply in_map_iff in Hin. destruct Hin as (w & Hw & Hinw).
  assert (Hall : lo <= 4 <-> forall v, In v vs -> Temp.min (idealTemp v) <= 4).
  { split.
    - intros H v Hv.
      assert (Temp.min (idealTemp v) <= lo) by (apply Hub; now apply in_tempMins).
      lia.
    - intros H. rewrite <- Hw. now apply H. }
  destruct (lo <=? 4) eqn:E.
  - apply Z.leb_le in E. split; [|split]; try discriminate.
    + split; [intros _; now apply Hall | reflexivity].
    + split; [discriminate|]. intros (v & Hv & Hgt).
      pose proof (proj1 Hall E v Hv). lia.
  - apply Z.leb_gt in E. split; [|split]; try discriminate.
    + split; [discriminate|]. intros H. pose proof (proj2 Hall H). lia.
    + split; [|reflexivity]. intros _. exists w. split; [assumption | lia].
Qed.

Lemma transport_type_rule_witness :
  rec_type (getTransportRecommendation tomatoesEggplant) = t_controlled_atmosphere.
Proof.
  apply (proj1 (proj2 (transport_type_rule tomatoesEggplant ltac:(discriminate)))).
  eexists. split; [left; reflexivity | reflexivity].
Defined.

(** When the items' ranges properly overlap (every idealTemp.min is below
    every idealTemp.max) and some idealTemp.min is not negative, the
    recommended range is non-empty and lies inside every item's range. *)
Theorem transport_envelope_feasible (vs : list Vegetable) :
  vs <> [] ->
  (exists v, In v vs /\ 0 <= Temp.min (idealTemp v)) ->
  (forall a b, In a vs -> In b vs -> Temp.min (idealTemp a) < Temp.max (idealTemp b)) ->
  let t := temperature (getTransportRecommendation vs) in
  Temp.min t < Temp.max t
  /\ forall v, In v vs ->
               Temp.min (idealTemp v) <= Temp.min t /\ Temp.max t <= Temp.max (idealTemp v).
Proof.
  intros Hne (w & Hw & Hw0) Hov.
  destruct (transport_temperature vs Hne) as (lo & hi & [Hlo Hub] & [Hhi Hlb] & E).
  cbv zeta. rewrite E; simpl.
  apply in_map_iff in Hlo, Hhi.
  destruct Hlo as (a & Ha & Hina), Hhi as (b & Hb & Hinb).
  assert (Hlt : lo < hi) by (rewrite <- Ha, <- Hb; now apply Hov).
  assert (H0 : 0 <= lo).
  { assert (Temp.min (idealTemp w) <= lo) by (apply Hub; now apply in_tempMins). lia. }
  assert (G : (hi >? lo) = true) by (apply Z.gtb_lt; lia).
  rewrite G. split; [lia|].
  intros v Hv.
  assert (Temp.min (idealTemp v) <= lo) by (apply Hub; now apply in_tempMins).
  assert (hi <= Temp.max (idealTemp v)).
  { apply Hlb. now apply in_tempMaxs. }
  lia.
Qed.

Lemma transport_envelope_feasible_witness :
  Temp.min (temperature (getTransportRecommendation cauliflowerOnly))
  < Temp.max (temperature (getTransportRecommendation cauliflowerOnly)).
Proof.
  apply (transport_envelope_feasible cauliflowerOnly).
  - discriminate.
  - eexists. split; [left; reflexivity | simpl; lia].
  - intros a b [<- | []] [<- | []]. simpl. lia.
Defined.

(** As soon as one item has a non-negative idealTemp.min, the recommended
    range is never empty or reversed: its minimum is below its maximum. *)
Theorem transport_envelope_proper (vs : list Vegetable) :
  vs <> [] ->
  (exists v, In v vs /\ 0 <= Temp.min (idealTemp v)) ->
  Temp.min (temperature (getTransportRecommendation vs))
  < Temp.max (temperature (getTransportRecommendation vs)).
Proof.
  intros Hne (w & Hw & Hw0).
  destruct (transport_temperature vs Hne) as (lo & hi & [_ Hub] & _ & E).
  rewrite E; simpl.
  assert (Temp.min (idealTemp w) <= lo) by (apply Hub; now apply in_tempMins).
  destruct (hi >? lo) eqn:G; [apply Z.gtb_lt in G|]; lia.
Qed.

Lemma transport_envelope_proper_witness :
  Temp.min (temperature (getTransportRecommendation onionsPotatoes))
  < Temp.max (temperature (getTransportRecommendation onionsPotatoes)).
Proof.
  apply (transport_envelope_proper onionsPotatoes).
  - discriminate.
  - eexists. split; [left; reflexivity | simpl; lia].
Defined.

(** * Load model: names, ids and totals *)

Lemma lookup_name k db d :
  Forall (fun e => d_name (snd e) = fst e) db -> lookup k db = Some d -> d_name d = k.
Proof.
  induction 1 as [|[k' d'] db Hk _ IH]; simpl; [discriminate|].
  destruct (String.eqb k' k) eqn:E; [|exact IH].
  intros [= <-]. apply String.eqb_eq in E. simpl in Hk. congruence.
Qed.

Lemma database_keys : Forall (fun e => d_name (snd e) = fst e) VEGETABLE_DATABASE.
Proof. repeat constructor. Qed.

Lemma named_iff sel vs :
  existsb (fun v => String.eqb (name v) sel) vs = true <-> In sel (map name vs).
Proof.
  rewrite existsb_exists, in_map_iff. split.
  - intros (v & Hv & E). apply String.eqb_eq in E. eauto.
  - intros (v & E & Hv). exists v. split; [assumption|]. now apply String.eqb_eq.
Qed.

Lemma addVegetable_outcome sel newId vs :
  (String.eqb sel "" || existsb (fun v => String.eqb (name v) sel) vs = true
   /\ addVegetable sel newId vs = vs)
  \/ (String.eqb sel "" || existsb (fun v => String.eqb (name v) sel) vs = false
      /\ lookup sel VEGETABLE_DATABASE = None /\ addVegetable sel newId vs = vs)
  \/ (String.eqb sel "" || existsb (fun v => String.eqb (name v) sel) vs = false
      /\ exists d, lookup sel VEGETABLE_DATABASE = Some d
                   /\ addVegetable sel newId vs = vs ++ [spread newId 1 d]).
Proof.
  unfold addVegetable.
  destruct (String.eqb sel "" || existsb _ vs); [now left | right].
  destruct (lookup sel VEGETABLE_DATABASE) as [d|]; [right | left]; eauto.
Qed.

(** For a selection the select element offers, [addVegetable] keeps item
    names pairwise distinct, appends only an item carrying the selected
    name, and a second add of the same name (with whatever id) changes
    nothing. *)
Theorem addVegetable_names (sel newId : string) (vs : list Vegetable) :
  offered sel ->
  NoDup (map name vs) ->
  NoDup (map name (addVegetable sel newId vs))
  /\ (addVegetable sel newId vs = vs
      \/ exists v, name v = sel /\ ~ In sel (map name vs)
                   /\ addVegetable sel newId vs = vs ++ [v])
  /\ forall otherId,
       addVegetable sel otherId (addVegetable sel newId vs) = addVegetable sel newId vs.
Proof.
  intros _ Hnd.
  destruct (addVegetable_outcome sel newId vs) as [[Hc E] | [(Hc & Hl & E) | (Hc & d & Hl & E)]].
  - rewrite E. split; [assumption | split; [now left|]].
    intros otherId. unfold addVegetable. now rewrite Hc.
  - rewrite E. split; [assumption | split; [now left|]].
    intros otherId. unfold addVegetable. now rewrite Hc, Hl.
  - rewrite E.
    assert (Hname : name (spread newId 1 d) = sel).
    { simpl. exact (lookup_name sel _ d database_keys Hl). }
    apply orb_false_iff in Hc. destruct Hc as [Hs Hx].
    assert (Hfresh : ~ In sel (map name vs)).
    { intros H. apply named_iff in H. congruence. }
    split; [|split].
    + rewrite map_app. apply NoDup_app; [assumption | |].
      * simpl. constructor; [intros [] | constructor].
      * intros a Ha [<- | []]. apply Hfresh. simpl in Ha. now rewrite <- Hname.
    + right. exists (spread newId 1 d). auto.
    + intros otherId. unfold addVegetable. rewrite Hs; simpl.
      assert (Hex : existsb (fun v => String.eqb (name v) sel)
                            (vs ++ [spread newId 1 d]) = true).
      { apply named_iff. rewrite map_app. apply in_or_app. right.
        simpl. left. exact Hname. }
      now rewrite Hex.
Qed.

Lemma addVegetable_names_witness :
  NoDup (map name (addVegetable "Okra" "id9" onionsPotatoes)).
Proof.
  apply (addVegetable_names "Okra" "id9" onionsPotatoes).
  - right. simpl. tauto.
  - repeat constructor; simpl; intuition discriminate.
Defined.

Lemma updateQuantity_cons target change v vs :
  updateQuantity target change (v :: vs)
  = (if 0 <? quantity (bump target change v) then [bump target change v] else [])
    ++ updateQuantity target change vs.
Proof.
  unfold updateQuantity; simpl. now destruct (0 <? quantity (bump target change v)).
Qed.

Lemma bump_name target change v : name (bump target change v) = name v.
Proof. unfold bump. now destruct (String.eqb (id v) target). Qed.

Lemma updateQuantity_keys {K : Type} (f : Vegetable -> K) target change vs :
  (forall v, f (bump target change v) = f v) ->
  (forall k, In k (map f (updateQuantity target change vs)) -> In k (map f vs))
  /\ (NoDup (map f vs) -> NoDup (map f (updateQuantity target change vs))).
Proof.
  intros Hf. induction vs as [|v vs [IHin IHnd]]; simpl.
  - split; [intros k [] | intros _; constructor].
  - rewrite updateQuantity_cons. split.
    + intros k Hk. rewrite map_app in Hk. apply in_app_or in Hk.
      destruct Hk as [Hk | Hk]; [|right; now apply IHin].
      destruct (0 <? quantity (bump target change v)); simpl in Hk; [|destruct Hk].
      destruct Hk as [<- | []]. left. symmetry. apply Hf.
    + intros Hnd. inversion Hnd as [|? ? Hnotin Hnd' ]; subst.
      destruct (0 <? quantity (bump target change v)); simpl; [|now apply IHnd].
      constructor; [|now apply IHnd].
      rewrite Hf. intros Hin. apply Hnotin. now apply IHin.
Qed.

(** [updateQuantity] introduces no new id or name, and keeps ids pairwise
    distinct and names pairwise distinct when they were. *)
Theorem updateQuantity_keeps_keys (target : string) (change : Z) (vs : list Vegetable) :
  (forall k, In k (map id (updateQuantity target change vs)) -> In k (map id vs))
  /\ (forall k, In k (map name (updateQuantity target change vs)) -> In k (map name vs))
  /\ (NoDup (map id vs) -> NoDup (map id (updateQuantity target change vs)))
  /\ (NoDup (map name vs) -> NoDup (map name (updateQuantity target change vs))).
Proof.
  destruct (updateQuantity_keys id target change vs (bump_id target change)) as [H1 H2].
  destruct (updateQuantity_keys name target change vs (bump_name target change)) as [H3 H4].
  auto.
Qed.

Lemma updateQuantity_keeps_keys_witness :
  NoDup (map id (updateQuantity "id1" 1 onionsPotatoes)).
Proof.
  apply (proj1 (proj2 (proj2 (updateQuantity_keeps_keys "id1" 1 onionsPotatoes)))).
  repeat constructor; simpl; intuition discriminate.
Defined.

Lemma withQuantity_same v : withQuantity v (quantity v) = v.
Proof. now destruct v. Qed.

Lemma updateQuantity_single_undo target change v :
  1 <= quantity v -> 0 <= change ->
  updateQuantity target (- change) (updateQuantity target change [v]) = [v].
Proof.
  intros Hq Hc. unfold updateQuantity, bump; simpl.
  destruct (String.eqb (id v) target) eqn:E; simpl.
  - replace (0 <? Z.max 0 (quantity v + change)) with true
      by (symmetry; apply Z.ltb_lt; lia).
    simpl. rewrite E. simpl.
    replace (Z.max 0 (Z.max 0 (quantity v + change) + - change)) with (quantity v) by lia.
    replace (0 <? quantity v) with true by (symmetry; apply Z.ltb_lt; lia).
    unfold withQuantity; simpl. now destruct v.
  - replace (0 <? quantity v) with true by (symmetry; apply Z.ltb_lt; lia).
    simpl. rewrite E.
    now replace (0 <? quantity v) with true by (symmetry; apply Z.ltb_lt; lia).
Qed.

(** On a load whose quantities are all at least 1, raising an item by a
    non-negative amount and lowering it by the same amount gives the load
    back unchanged (plus one then minus one in particular), as long as the
    raised quantities stay within the exact integer range of the numbers. *)
Theorem updateQuantity_undo (target : string) (change : Z) (vs : list Vegetable) :
  allPositive vs -> 0 <= change ->
  Forall (fun v => quantity v + change <= maxExact) vs ->
  updateQuantity target (- change) (updateQuantity target change vs) = vs.
Proof.
  intros Hpos Hc _. induction Hpos as [|v vs Hv _ IH]; [reflexivity|].
  change (v :: vs) with ([v] ++ vs).
  rewrite !updateQuantity_app, IH.
  now rewrite (updateQuantity_single_undo target change v Hv Hc).
Qed.

Lemma updateQuantity_undo_witness :
  updateQuantity "id1" (-1) (updateQuantity "id1" 1 onionsPotatoes) = onionsPotatoes.
Proof.
  apply (updateQuantity_undo "id1" 1 onionsPotatoes).
  - repeat constructor; simpl; lia.
  - lia.
  - repeat constructor; unfold maxExact; simpl; lia.
Defined.

Lemma unique_by_id vs a b :
  NoDup (map id vs) -> In a vs -> In b vs -> id a = id b -> a = b.
Proof.
  induction vs as [|v vs IH]; simpl; [intros _ []|].
  intros Hnd Ha Hb E. inversion Hnd as [|? ? Hnotin Hnd']; subst.
  destruct Ha as [<- | Ha], Hb as [<- | Hb]; auto.
  - exfalso. apply Hnotin. rewrite E. now apply in_map.
  - exfalso. apply Hnotin. rewrite <- E. now apply in_map.
Qed.

Lemma updateQuantity_absent target change vs :
  allPositive vs -> (forall w, In w vs -> id w <> target) ->
  updateQuantity target change vs = vs.
Proof.
  induction 1 as [|v vs Hv _ IH]; intros Hno; [reflexivity|].
  rewrite updateQuantity_cons, IH by (intros w Hw; apply Hno; now right).
  assert (Ht : isTarget target v = false).
  { unfold isTarget. apply String.eqb_neq. apply Hno. now left. }
  rewrite (bump_other target change v Ht).
  now replace (0 <? quantity v) with true by (symmetry; apply Z.ltb_lt; lia).
Qed.

Lemma getTotalQuantity_cons v vs :
  getTotalQuantity (v :: vs) = quantity v + getTotalQuantity vs.
Proof. unfold getTotalQuantity; simpl. rewrite !sum_from. lia. Qed.

Lemma getTotalQuantity_app l1 l2 :
  getTotalQuantity (l1 ++ l2) = getTotalQuantity l1 + getTotalQuantity l2.
Proof.
  induction l1 as [|v l1 IH]; simpl; [reflexivity|].
  rewrite !getTotalQuantity_cons, IH. lia.
Qed.

Lemma updateQuantity_total_eq change vs v :
  allPositive vs -> NoDup (map id vs) -> In v vs ->
  getTotalQuantity (updateQuantity (id v) change vs)
  = getTotalQuantity vs - quantity v + Z.max 0 (quantity v + change).
Proof.
  intros Hpos Hnd Hin.
  induction Hpos as [|w vs Hw Hpos IH]; [destruct Hin|].
  inversion Hnd as [|? ? Hnotin Hnd']; subst.
  rewrite updateQuantity_cons, getTotalQuantity_app, getTotalQuantity_cons.
  destruct Hin as [-> | Hin].
  - rewrite (updateQuantity_absent (id v) change vs Hpos).
    + unfold bump. rewrite String.eqb_refl. cbn [quantity withQuantity].
      destruct (0 <? Z.max 0 (quantity v + change)) eqn:E.
      * rewrite getTotalQuantity_cons. unfold withQuantity; cbn [quantity].
        change (getTotalQuantity []) with 0. lia.
      * apply Z.ltb_ge in E. change (getTotalQuantity []) with 0. lia.
    + intros u Hu E. apply Hnotin. rewrite <- E. now apply in_map.
  - assert (Ht : isTarget (id v) w = false).
    { unfold isTarget. apply String.eqb_neq. intros E.
      apply Hnotin. rewrite E. now apply in_map. }
    rewrite (bump_other (id v) change w Ht).
    replace (0 <? quantity w) with true by (symmetry; apply Z.ltb_lt; lia).
    rewrite getTotalQuantity_cons, (IH Hnd' Hin).
    change (getTotalQuantity []) with 0. lia.
Qed.

(** With distinct ids and quantities of at least 1, and with the change,
    the total and the total plus the change within the exact integer range
    of the numbers, [updateQuantity] on the id of an item of quantity q
    moves the total by exactly the change while q + change stays
    non-negative, and otherwise takes q off the total. *)
Theorem updateQuantity_total (target : string) (change : Z) (vs : list Vegetable)
    (v : Vegetable) :
  allPositive vs -> NoDup (map id vs) -> In v vs -> id v = target ->
  - maxExact <= change -> getTotalQuantity vs <= maxExact ->
  getTotalQuantity vs + change <= maxExact ->
  getTotalQuantity (updateQuantity target change vs)
  = getTotalQuantity vs - quantity v + Z.max 0 (quantity v + change)
  /\ (0 <= quantity v + change ->
      getTotalQuantity (updateQuantity target change vs) = getTotalQuantity vs + change).
Proof.
  intros Hpos Hnd Hin Hid _ _ _. subst target.
  pose proof (updateQuantity_total_eq change vs v Hpos Hnd Hin) as Hmain.
  split; [exact Hmain | intros H; rewrite Hmain; lia].
Qed.

Lemma updateQuantity_total_witness :
  getTotalQuantity (updateQuantity "id1" 1 onionsPotatoes)
  = getTotalQuantity onionsPotatoes + 1.
Proof.
  refine (proj2 (updateQuantity_total "id1" 1 onionsPotatoes
                   (mkVegetable "id1" "Onions" 1 low low (Temp.mk 0 4) 90)
                   _ _ _ _ _ _ _) _).
  - repeat constructor; simpl; lia.
  - repeat constructor; simpl; intuition discriminate.
  - left. reflexivity.
  - reflexivity.
  - unfold maxExact. lia.
  - vm_compute. discriminate.
  - vm_compute. discriminate.
  - simpl. lia.
Defined.

(** * Decrement with confirmation *)

Lemma find_by_id target vs v :
  NoDup (map id vs) -> In v vs -> id v = target ->
  find (fun w => String.eqb (id w) target) vs = Some v.
Proof.
  intros Hnd Hin Hid.
  destruct (find (fun w => String.eqb (id w) target) vs) as [u|] eqn:F.
  - apply find_some in F. destruct F as [Hu E]. apply String.eqb_eq in E.
    f_equal. apply (unique_by_id vs u v Hnd Hu Hin). congruence.
  - pose proof (find_none _ _ F v Hin) as E. simpl in E.
    rewrite Hid, String.eqb_refl in E. discriminate.
Qed.

Lemma updateQuantity_removes target vs v :
  allPositive vs -> NoDup (map id vs) -> In v vs -> id v = target -> quantity v = 1 ->
  updateQuantity target (-1) vs = filter (fun w => negb (isTarget target w)) vs.
Proof.
  intros Hpos Hnd Hin Hid Hq.
  rewrite (updateQuantity_shape target (-1) vs Hpos).
  rewrite (filter_ext_in (survives target (-1)) (fun w => negb (isTarget target w))).
  - rewrite <- (map_id (filter _ vs)) at 2.
    apply map_ext_in. intros w Hw. apply filter_In in Hw. destruct Hw as [_ Hw].
    apply bump_other. now destruct (isTarget target w).
  - intros w Hw. unfold survives.
    destruct (isTarget target w) eqn:Ht; [|reflexivity]. simpl.
    assert (w = v).
    { apply (unique_by_id vs w v Hnd Hw Hin).
      unfold isTarget in Ht. apply String.eqb_eq in Ht. congruence. }
    subst w. now rewrite Hq.
Qed.



(** Decrementing an item of quantity 1 and confirming the dialog removes
    exactly that item (ids distinct, the id not the empty string): the
    other items stay as they were, in order, and the dialog is closed. *)
Theorem decrement_then_confirm (target : string) (st : InputState) (v : Vegetable) :
  allPositive (vegetables st) -> NoDup (map id (vegetables st)) ->
  In v (vegetables st) -> id v = target -> quantity v = 1 -> target <> "" ->
  confirmRemove (handleDecrement target st)
  = mkInput (filter (fun w => negb (isTarget target w)) (vegetables st)) false None.
Proof.
  intros Hpos Hnd Hin Hid Hq Hne.
  unfold handleDecrement. rewrite (find_by_id target _ v Hnd Hin Hid), Hq. simpl.
  unfold confirmRemove. cbn [targetVegId vegetables].
  apply String.eqb_neq in Hne. rewrite Hne.
  now rewrite (updateQuantity_removes target _ v Hpos Hnd Hin Hid Hq).
Qed.

Lemma decrement_then_confirm_witness :
  vegetables (confirmRemove (handleDecrement "id1" (mkInput onionsPotatoes true None)))
  = filter (fun w => negb (isTarget "id1" w)) onionsPotatoes.
Proof.
  rewrite (decrement_then_confirm "id1" (mkInput onionsPotatoes true None)
             (mkVegetable "id1" "Onions" 1 low low (Temp.mk 0 4) 90)).
  - reflexivity.
  - repeat constructor; simpl; lia.
  - repeat constructor; simpl; intuition discriminate.
  - left. reflexivity.
  - reflexivity.
  - reflexivity.
  - discriminate.
Defined.

(** * Capacity and utilization *)


Lemma auto_capacity_covers meta vs :
  autoTruckQuantity meta = true -> getTotalQuantity vs <= getTotalCapacity meta vs.
Proof.
  intros Ha. unfold getTotalCapacity, effectiveTruckQuantity. rewrite Ha.
  pose proof (capacity_positive (truckSize meta)) as Hc.
  pose proof (ceilDiv_spec (getTotalQuantity vs) _ Hc). nia.
Qed.



Lemma total_nonneg vs :
  Forall (fun v => 0 <= quantity v) vs -> 0 <= getTotalQuantity vs.
Proof.
  induction 1 as [|v vs Hv _ IH]; [reflexivity|].
  rewrite getTotalQuantity_cons. lia.
Qed.

Section UtilizationBounds.

Variable rnd : Q -> Q.

Hypothesis rnd_mono : forall a b : Q, (a <= b)%Q -> (rnd a <= rnd b)%Q.
Hypothesis rnd_int : forall z : Z, (rnd (inject_Z z) == inject_Z z)%Q.

Lemma percent_bounds (t c : Z) :
  0 <= t -> 1 <= c ->
  0 <= Math_round (mul rnd (div rnd (num t) (num c)) (lit rnd 100))
  /\ (t <= c -> Math_round (mul rnd (div rnd (num t) (num c)) (lit rnd 100)) <= 100).
Proof.
  intros Ht Hc.
  assert (Hcq : (0 < num c)%Q) by (unfold num, Qlt; simpl; lia).
  assert (Htq : (0 <= num t)%Q) by (unfold num, Qle; simpl; lia).
  assert (H100 : (lit rnd 100 == 100)%Q) by (unfold lit; apply (rnd_int 100)).
  assert (Hd0 : (0 <= div rnd (num t) (num c))%Q).
  { unfold div. rewrite <- (rnd_int 0). apply rnd_mono.
    apply Qle_shift_div_l; [assumption|]. change (inject_Z 0) with 0%Q. lra. }
  assert (Hm0 : (0 <= mul rnd (div rnd (num t) (num c)) (lit rnd 100))%Q).
  { unfold mul. rewrite <- (rnd_int 0). apply rnd_mono.
    change (inject_Z 0) with 0%Q. rewrite H100.
    apply Qmult_le_0_compat; [assumption | lra]. }
  split.
  - unfold Math_round.
    apply Z.le_trans with (Qfloor (0 + (1 # 2))%Q); [vm_compute; discriminate|].
    apply Qfloor_resp_le. lra.
  - intros Hle.
    assert (Hd1 : (div rnd (num t) (num c) <= 1)%Q).
    { unfold div. rewrite <- (rnd_int 1). apply rnd_mono.
      apply Qle_shift_div_r; [assumption|].
      change (inject_Z 1) with 1%Q. rewrite Qmult_1_l.
      unfold num. rewrite <- Zle_Qle. exact Hle. }
    assert (Hm1 : (mul rnd (div rnd (num t) (num c)) (lit rnd 100) <= 100)%Q).
    { unfold mul. rewrite <- (rnd_int 100) at 2. apply rnd_mono.
      rewrite H100. change (inject_Z 100) with 100%Q. lra. }
    unfold Math_round.
    apply Z.le_trans with (Qfloor (100 + (1 # 2))%Q); [|vm_compute; discriminate].
    apply Qfloor_resp_le. lra.
Qed.

(** For non-negative quantities the utilization is never negative, and
    with [autoTruckQuantity] set it never exceeds 100 percent; this holds for
    every monotone rounding that leaves integers alone. *)
Theorem utilization_bounds (meta : ScenarioMeta) (vs : list Vegetable) :
  Forall (fun v => 0 <= quantity v) vs ->
  0 <= utilization rnd meta vs
  /\ (autoTruckQuantity meta = true -> utilization rnd meta vs <= 100).
Proof.
  intros Hq. unfold utilization.
  pose proof (total_nonneg vs Hq) as Ht.
  destruct (percent_bounds (getTotalQuantity vs) (Z.max 1 (getTotalCapacity meta vs)) Ht)
    as [H0 H1]; [lia|].
  split; [exact H0|].
  intros Ha. apply H1.
  pose proof (auto_capacity_covers meta vs Ha). lia.
Qed.

End UtilizationBounds.

Lemma exact_int : forall z : Z, (exact (inject_Z z) == inject_Z z)%Q.
Proof. intros z. apply Qeq_refl. Qed.

Lemma utilization_bounds_witness :
  0 <= utilization exact defaultMeta onionsPotatoes <= 100.
Proof.
  destruct (utilization_bounds exact exact_mono exact_int defaultMeta onionsPotatoes)
    as [H0 H1].
  - repeat constructor; discriminate.
  - split; [exact H0 | apply H1; reflexivity].
Defined.

(** * Impact estimate: penalties and signs *)

Lemma issues_pairs (c : Vegetable -> Vegetable -> bool) vs :
  (forall a b, c a b = c b a) ->
  ((exists v, In v vs
              /\ existsb (fun other => negb (String.eqb (id other) (id v)) && c v other) vs
                 = true)
   -> exists i j a b, (i < j)%nat /\ nth_error vs i = Some a
                      /\ nth_error vs j = Some b /\ c a b = true)
  /\ (NoDup (map id vs) ->
      (exists i j a b, (i < j)%nat /\ nth_error vs i = Some a
                       /\ nth_error vs j = Some b /\ c a b = true)
      -> exists v, In v vs
                   /\ existsb (fun other => negb (String.eqb (id other) (id v)) && c v other) vs
                      = true).
Proof.
  intros Hsym. split.
  - intros (v & Hv & Hex). apply existsb_exists in Hex.
    destruct Hex as (o & Ho & Hc). apply andb_true_iff in Hc. destruct Hc as [Hid Hc].
    apply negb_true_iff, String.eqb_neq in Hid.
    apply In_nth_error in Hv, Ho. destruct Hv as [i Hi], Ho as [j Hj].
    assert (i <> j) by (intros ->; congruence).
    destruct (Nat.lt_ge_cases i j).
    + exists i, j, v, o. auto.
    + exists j, i, o, v. rewrite Hsym. repeat split; auto. lia.
  - intros Hnd (i & j & a & b & Hij & Hi & Hj & Hc).
    exists a. split; [eapply nth_error_In; eassumption|].
    apply existsb_exists. exists b. split; [eapply nth_error_In; eassumption|].
    rewrite Hc, andb_true_r. apply negb_true_iff, String.eqb_neq.
    intros E.
    assert (i = j); [|lia].
    apply (proj1 (NoDup_nth_error _) Hnd).
    + rewrite length_map. apply nth_error_Some. congruence.
    + now rewrite (map_nth_error id _ _ Hj), (map_nth_error id _ _ Hi), E.
Qed.

Lemma tempConflict_sym a b : tempConflict a b = tempConflict b a.
Proof. unfold tempConflict. apply orb_comm. Qed.

Lemma item_issue (c : Vegetable -> Vegetable -> bool) vs v :
  NoDup (map id vs) -> In v vs ->
  (existsb (fun other => negb (String.eqb (id other) (id v)) && c v other) vs = true
   <-> conflictsWith c vs v).
Proof.
  intros Hnd Hv. rewrite existsb_exists. split.
  - intros (o & Ho & Hc). apply andb_true_iff in Hc. destruct Hc as [Hid Hc].
    apply negb_true_iff, String.eqb_neq in Hid.
    exists o. split; [assumption | split; [|assumption]]. intros ->. now apply Hid.
  - intros (o & Ho & Hne & Hc). exists o. split; [assumption|].
    rewrite Hc, andb_true_r. apply negb_true_iff, String.eqb_neq.
    intros E. apply Hne. now apply (unique_by_id vs o v Hnd Ho Hv).
Qed.

(** With distinct ids, an item of the load is charged the ethylene penalty
    exactly when some other item of the load has an ethylene conflict with
    it, and the temperature penalty exactly when some other item's range
    does not overlap its own; its waste multiplier is 0.25, plus 0.20 in the
    first case, plus 0.15 in the second.  So for two or more items the badge
    is "incompatible" exactly when some item carries the ethylene penalty. *)
Theorem penalties_and_pairs (rnd : Q -> Q) (vs : list Vegetable) (v : Vegetable) :
  NoDup (map id vs) -> In v vs ->
  (hasEthyleneIssues vs v = true <-> conflictsWith ethyleneConflict vs v)
  /\ (hasTemperatureIssues vs v = true <-> conflictsWith tempConflict vs v)
  /\ (conflictsWith ethyleneConflict vs v -> conflictsWith tempConflict vs v ->
      wasteMultiplier rnd vs v = add rnd (add rnd (lit rnd 0.25) (lit rnd 0.20)) (lit rnd 0.15))
  /\ (conflictsWith ethyleneConflict vs v -> ~ conflictsWith tempConflict vs v ->
      wasteMultiplier rnd vs v = add rnd (lit rnd 0.25) (lit rnd 0.20))
  /\ (~ conflictsWith ethyleneConflict vs v -> conflictsWith tempConflict vs v ->
      wasteMultiplier rnd vs v = add rnd (lit rnd 0.25) (lit rnd 0.15))
  /\ (~ conflictsWith ethyleneConflict vs v -> ~ conflictsWith tempConflict vs v ->
      wasteMultiplier rnd vs v = lit rnd 0.25)
  /\ ((2 <= List.length vs)%nat ->
      (status (getCompatibilityStatus vs) = incompatible
       <-> exists w, In w vs /\ conflictsWith ethyleneConflict vs w)).
Proof.
  intros Hnd Hv.
  pose proof (item_issue ethyleneConflict vs v Hnd Hv) as He.
  pose proof (item_issue tempConflict vs v Hnd Hv) as Ht.
  change (hasEthyleneIssues vs v = true <-> conflictsWith ethyleneConflict vs v) in He.
  change (hasTemperatureIssues vs v = true <-> conflictsWith tempConflict vs v) in Ht.
  split; [exact He | split; [exact Ht|]].
  assert (Hm : forall e t,
             hasEthyleneIssues vs v = e -> hasTemperatureIssues vs v = t ->
             wasteMultiplier rnd vs v
             = (let m1 := if e then add rnd (lit rnd 0.25) (lit rnd 0.20) else lit rnd 0.25 in
                if t then add rnd m1 (lit rnd 0.15) else m1)).
  { intros e t <- <-. reflexivity. }
  assert (Hne : ~ conflictsWith ethyleneConflict vs v -> hasEthyleneIssues vs v = false).
  { intros H. destruct (hasEthyleneIssues vs v); [elim H; now apply He | reflexivity]. }
  assert (Hnt : ~ conflictsWith tempConflict vs v -> hasTemperatureIssues vs v = false).
  { intros H. destruct (hasTemperatureIssues vs v); [elim H; now apply Ht | reflexivity]. }
  split; [|split; [|split; [|split]]].
  - intros H1 H2. apply (Hm true true); [now apply He | now apply Ht].
  - intros H1 H2. apply (Hm true false); [now apply He | now apply Hnt].
  - intros H1 H2. apply (Hm false true); [now apply Hne | now apply Ht].
  - intros H1 H2. apply (Hm false false); [now apply Hne | now apply Hnt].
  - intros Hlen.
    destruct (issues_pairs ethyleneConflict vs ethyleneConflict_sym) as [He1 He2].
    assert (Hpair : ethylenePair vs <-> exists w, In w vs /\ conflictsWith ethyleneConflict vs w).
    { split.
      - intros Hp. destruct (He2 Hnd Hp) as (w & Hw & Hx).
        exists w. split; [assumption|]. now apply (item_issue ethyleneConflict vs w Hnd Hw).
      - intros (w & Hw & Hx). apply He1. exists w. split; [assumption|].
        now apply (item_issue ethyleneConflict vs w Hnd Hw). }
    rewrite <- Hpair. unfold getCompatibilityStatus.
    apply Nat.ltb_ge in Hlen. rewrite Hlen.
    pose proof (quickCheck_spec vs) as Hq.
    destruct (quickCheck vs); simpl.
    + split; [intros _; now apply Hq | reflexivity].
    + split; [discriminate|]. intros H. apply Hq in H. discriminate.
Qed.

Lemma penalties_and_pairs_witness :
  hasEthyleneIssues tomatoesEggplant
    (mkVegetable "id4" "Tomatoes" 1 high medium (Temp.mk 12 15) 7) = true
  /\ wasteMultiplier exact tomatoesEggplant
       (mkVegetable "id4" "Tomatoes" 1 high medium (Temp.mk 12 15) 7)
     = add exact (lit exact 0.25) (lit exact 0.20).
Proof.
  assert (Hnd : NoDup (map id tomatoesEggplant)).
  { repeat constructor; simpl; intuition discriminate. }
  assert (Hin : In (mkVegetable "id4" "Tomatoes" 1 high medium (Temp.mk 12 15) 7)
                   tomatoesEggplant) by (left; reflexivity).
  assert (He : conflictsWith ethyleneConflict tomatoesEggplant
                 (mkVegetable "id4" "Tomatoes" 1 high medium (Temp.mk 12 15) 7)).
  { eexists. split; [right; left; reflexivity|]. split; [discriminate | reflexivity]. }
  assert (Ht : ~ conflictsWith tempConflict tomatoesEggplant
                   (mkVegetable "id4" "Tomatoes" 1 high medium (Temp.mk 12 15) 7)).
  { intros (o & [<- | [<- | []]] & Hne & Hc); [now apply Hne | discriminate Hc]. }
  destruct (penalties_and_pairs exact tomatoesEggplant _ Hnd Hin) as (H1 & _ & _ & H4 & _).
  split; [now apply H1 | now apply H4].
Defined.

Section ImpactSigns.

Variable rnd : Q -> Q.

Hypothesis rnd_mono : forall a b : Q, (a <= b)%Q -> (rnd a <= rnd b)%Q.
Hypothesis rnd_idem : forall a : Q, (rnd (rnd a) == rnd a)%Q.
Hypothesis rnd_zero : (rnd 0 == 0)%Q.

Open Scope Q_scope.

Lemma rnd_nonneg a : 0 <= a -> 0 <= rnd a.
Proof. intros H. rewrite <- rnd_zero. now apply rnd_mono. Qed.

Lemma sub_nonneg a b : b <= a -> 0 <= sub rnd a b.
Proof. intros H. apply rnd_nonneg. lra. Qed.

Lemma mul_mono_l a b c : 0 <= c -> a <= b -> mul rnd a c <= mul rnd b c.
Proof. intros Hc Hab. apply rnd_mono. now apply Qmult_le_compat_r. Qed.

Lemma div_mono_l a b c : 0 < c -> a <= b -> div rnd a c <= div rnd b c.
Proof.
  intros Hc Hab. apply rnd_mono. unfold Qdiv.
  apply Qmult_le_compat_r; [assumption|].
  apply Qinv_le_0_compat. lra.
Qed.

Lemma ifPositive_mono t a b : (0 < t -> a <= b) -> ifPositive t a <= ifPositive t b.
Proof.
  intros H. unfold ifPositive. destruct (Qle_bool t 0) eqn:E; [apply Qle_refl|].
  apply H. apply Qnot_le_lt. intros Hle. apply Qle_bool_iff in Hle. congruence.
Qed.

Lemma ifPositive_nonneg t a : (0 < t -> 0 <= a) -> 0 <= ifPositive t a.
Proof.
  intros H. unfold ifPositive. destruct (Qle_bool t 0) eqn:E; [apply Qle_refl|].
  apply H. apply Qnot_le_lt. intros Hle. apply Qle_bool_iff in Hle. congruence.
Qed.

Lemma waste_order vs :
  Forall (fun v => (0 <= quantity v)%Z) vs -> optimizedWaste rnd vs <= baselineWaste rnd vs.
Proof.
  intros Hq. unfold optimizedWaste, baselineWaste.
  apply (waste_fold_le rnd rnd_mono rnd_idem rnd_zero); [assumption | apply Qle_refl].
Qed.

(** For non-negative quantities and a non-negative unit cost, the
    optimized regime never reports a larger loss or waste percentage than the
    baseline, and the reported cost savings and waste reduction are never
    negative. *)
Theorem impact_savings_nonneg (vs : list Vegetable) (unitCost : Q) :
  Forall (fun v => (0 <= quantity v)%Z) vs -> 0 <= unitCost ->
  let r := calculateImpact rnd vs unitCost in
  estimatedLoss (withShelfLife r) <= estimatedLoss (withoutShelfLife r)
  /\ wastePercentage (withShelfLife r) <= wastePercentage (withoutShelfLife r)
  /\ 0 <= costSavings (savings r)
  /\ 0 <= wasteReduction (savings r).
Proof.
  intros Hq Hc. pose proof (waste_order vs Hq) as Hw.
  destruct vs as [|v rest]; cbv zeta.
  { simpl. repeat split; apply Qle_refl. }
  unfold calculateImpact.
  cbn [withShelfLife withoutShelfLife savings estimatedLoss wastePercentage
       costSavings wasteReduction].
  set (vs := v :: rest) in *.
  assert (H100 : 0 <= lit rnd 100).
  { apply (lit_nonneg rnd rnd_mono rnd_zero). unfold Qle; simpl; lia. }
  split; [|split; [|split]].
  - now apply mul_mono_l.
  - apply ifPositive_mono. intros Ht.
    apply mul_mono_l; [assumption|]. now apply div_mono_l.
  - apply sub_nonneg. now apply mul_mono_l.
  - apply ifPositive_nonneg. intros Ht.
    apply rnd_nonneg. apply Qmult_le_0_compat; [|assumption].
    apply rnd_nonneg. unfold Qdiv. apply Qmult_le_0_compat.
    + now apply sub_nonneg.
    + apply Qinv_le_0_compat. lra.
Qed.

Lemma shelf_sum_nonneg l a :
  Forall (fun v => (0 <= shelfLife v)%Z) l -> 0 <= a ->
  0 <= fold_left (fun sum veg => add rnd sum (num (shelfLife veg))) l a.
Proof.
  intros Hs. revert a.
  induction Hs as [|w l Hw _ IH]; intros a Ha; simpl; [assumption|].
  apply IH. unfold add. apply rnd_nonneg.
  assert (0 <= num (shelfLife w)) by (unfold num, Qle; simpl; lia). lra.
Qed.

(** For a non-empty load with non-negative shelf lives, the reported
    baseline shelf life is at least one day, and the optimized figure and
    the reported extension are never negative. *)
Theorem shelf_life_signs (vs : list Vegetable) (unitCost : Q) :
  vs <> [] -> Forall (fun v => (0 <= shelfLife v)%Z) vs ->
  let r := calculateImpact rnd vs unitCost in
  1 <= shelfLifeDays (withoutShelfLife r)
  /\ 0 <= shelfLifeDays (withShelfLife r)
  /\ 0 <= shelfLifeExtension (savings r).
Proof.
  intros Hne Hs. destruct vs as [|v rest]; [congruence|]. cbv zeta.
  unfold calculateImpact.
  cbn [withShelfLife withoutShelfLife savings shelfLifeDays shelfLifeExtension].
  set (vs := v :: rest) in *.
  assert (Havg : 0 <= avgShelfLife rnd vs).
  { unfold avgShelfLife, div. apply rnd_nonneg. unfold Qdiv.
    apply Qmult_le_0_compat; [apply shelf_sum_nonneg; [assumption | apply Qle_refl]|].
    apply Qinv_le_0_compat. unfold num, len, Qle; simpl. lia. }
  assert (H12 : 0 <= lit rnd 1.2).
  { apply (lit_nonneg rnd rnd_mono rnd_zero). unfold Qle; simpl; lia. }
  split; [apply Q.le_max_l | split].
  - apply rnd_nonneg. now apply Qmult_le_0_compat.
  - apply sub_nonneg. apply (mul_mono_r rnd rnd_mono); [assumption|].
    apply rnd_mono. unfold Qle; simpl; lia.
Qed.

End ImpactSigns.

Lemma impact_savings_nonneg_witness :
  (0 <= costSavings (savings (calculateImpact exact tomatoesEggplant 100)))%Q.
Proof.
  apply (impact_savings_nonneg exact exact_mono exact_idem exact_zero tomatoesEggplant 100).
  - repeat constructor; discriminate.
  - discriminate.
Defined.

Lemma shelf_life_signs_witness :
  (0 <= shelfLifeExtension (savings (calculateImpact exact tomatoesEggplant 100)))%Q.
Proof.
  apply (shelf_life_signs exact exact_mono exact_zero tomatoesEggplant 100).
  - discriminate.
  - repeat constructor; discriminate.
Defined.

(** * Layout: ids, labels, isolation and the grid *)

Lemma pushZone_eq st members tempRange pos colour :
  pushZone st members tempRange pos colour
  = (fst st ++ [zoneAt st members tempRange pos colour], snd st + 1).
Proof. now destruct st. Qed.

Lemma len_pos {A : Type} (l : list A) : (0 <? len l) = true -> l <> [].
Proof. intros H E. subst. discriminate. Qed.

Lemma zoneStep_cases st tempRange veggies :
  let producers := filter (fun v => isHigh (ethyleneProduction v)) veggies in
  let sensitive := filter (fun v => isHigh (ethyleneSensitivity v)) veggies in
  let others := filter (fun v => negb (isHigh (ethyleneProduction v))
                                 && negb (isHigh (ethyleneSensitivity v))) veggies in
  (producers <> [] /\ sensitive <> []
   /\ exists z1 z2 st1 st2,
        st1 = pushZone st producers tempRange (fun n => mkPos 10 (10 + n * 120) 180 100)
                "bg-warning-orange/20 border-warning-orange/40"
        /\ st2 = pushZone st1 sensitive tempRange (fun n => mkPos 210 (10 + n * 120) 180 100)
                   "bg-fresh-green-light/40 border-fresh-green/40"
        /\ zone_vegetables z1 = producers /\ zone_vegetables z2 = sensitive
        /\ fst st1 = fst st ++ [z1] /\ fst st2 = fst st1 ++ [z2]
        /\ ((others = [] /\ zoneStep st (tempRange, veggies) = st2)
            \/ (others <> []
                /\ zoneStep st (tempRange, veggies)
                   = pushZone st2 others tempRange
                       (fun n => mkPos 410 (10 + n * 120) 180 100)
                       "bg-secondary/60 border-border")))
  \/ ((producers = [] \/ sensitive = [])
      /\ zoneStep st (tempRange, veggies)
         = pushZone st veggies tempRange
             (fun n => mkPos (10 + (n mod 3) * 200) (10 + (n / 3) * 120) 180 100)
             "bg-fresh-green-light/40 border-fresh-green/40").
Proof.
  cbv zeta. unfold zoneStep.
  set (P := filter (fun v => isHigh (ethyleneProduction v)) veggies).
  set (S := filter (fun v => isHigh (ethyleneSensitivity v)) veggies).
  set (O := filter (fun v => negb (isHigh (ethyleneProduction v))
                             && negb (isHigh (ethyleneSensitivity v))) veggies).
  set (pos1 := fun n => mkPos 10 (10 + n * 120) 180 100).
  set (pos2 := fun n => mkPos 210 (10 + n * 120) 180 100).
  set (c1 := "bg-warning-orange/20 border-warning-orange/40").
  set (c2 := "bg-fresh-green-light/40 border-fresh-green/40").
  destruct (0 <? len P) eqn:Ep; cbn [andb].
  - destruct (0 <? len S) eqn:Es.
    + left.
      split; [now apply len_pos|]. split; [now apply len_pos|].
      exists (zoneAt st P tempRange pos1 c1),
             (zoneAt (pushZone st P tempRange pos1 c1) S tempRange pos2 c2),
             (pushZone st P tempRange pos1 c1),
             (pushZone (pushZone st P tempRange pos1 c1) S tempRange pos2 c2).
      split; [reflexivity|]. split; [reflexivity|].
      split; [reflexivity|]. split; [reflexivity|].
      split; [now rewrite pushZone_eq|]. split; [now rewrite (pushZone_eq (pushZone _ _ _ _ _))|].
      destruct (0 <? len O) eqn:Eo.
      * right. split; [now apply len_pos | reflexivity].
      * left. split; [now apply len_zero | reflexivity].
    + right. split; [right; now apply len_zero | reflexivity].
  - right. split; [left; now apply len_zero | reflexivity].
Qed.

Lemma zoneSteps_invariant (I : list LoadZone * Z -> Prop)
    (B : string * list Vegetable -> Prop) :
  (forall st band, I st -> B band -> I (zoneStep st band)) ->
  forall bands st, Forall B bands -> I st -> I (fold_left zoneStep bands st).
Proof.
  intros Hstep bands. induction bands as [|band bands IH]; intros st HB HI; simpl.
  - exact HI.
  - inversion HB; subst. apply IH; [assumption|]. now apply Hstep.
Qed.

Lemma zoneStep_extends st band :
  exists added, fst (zoneStep st band) = fst st ++ added
                /\ snd (zoneStep st band) = snd st + len added.
Proof.
  destruct band as [k veggies].
  destruct (zoneStep_cases st k veggies)
    as [(_ & _ & z1 & z2 & st1 & st2 & E1 & E2 & _ & _ & F1 & F2 & [[_ E] | [_ E]]) | [_ E]];
    rewrite E.
  - exists [z1; z2]. rewrite F2, F1, <- app_assoc. split; [reflexivity|].
    rewrite E2, pushZone_eq, E1, pushZone_eq. unfold len; simpl. lia.
  - rewrite pushZone_eq. cbn [fst snd]. eexists [z1; z2; _].
    rewrite F2, F1, <- !app_assoc. split; [reflexivity|].
    rewrite E2, pushZone_eq, E1, pushZone_eq. unfold len; simpl. lia.
  - rewrite pushZone_eq. cbn [fst snd]. eexists [_].
    split; [reflexivity | unfold len; simpl; lia].
Qed.

Lemma pushZone_names st members tempRange pos colour :
  snd st = len (fst st)
  /\ map zone_id (fst st) = map zoneName (seq 0 (List.length (fst st))) ->
  snd (pushZone st members tempRange pos colour)
  = len (fst (pushZone st members tempRange pos colour))
  /\ map zone_id (fst (pushZone st members tempRange pos colour))
     = map zoneName (seq 0 (List.length (fst (pushZone st members tempRange pos colour)))).
Proof.
  intros [Hi Hn]. rewrite pushZone_eq. cbn [fst snd]. split.
  - unfold len in *. rewrite length_app. simpl. lia.
  - rewrite length_app, seq_app, !map_app, Hn. simpl. f_equal.
    unfold zoneAt, zoneName; simpl. rewrite Hi. reflexivity.
Qed.

(** The zones are numbered in order from 0: the zone of rank k has id
    "zone-k", so ids are pairwise distinct. *)
Theorem zone_ids_sequential (vs : list Vegetable) :
  map zone_id (optimizeLoading vs)
  = map zoneName (seq 0 (List.length (optimizeLoading vs))).
Proof.
  unfold optimizeLoading. destruct vs as [|v rest]; [reflexivity|].
  set (bands := temperatureGroups (v :: rest)).
  cut (snd (fold_left zoneStep bands ([], 0)) = len (fst (fold_left zoneStep bands ([], 0)))
       /\ map zone_id (fst (fold_left zoneStep bands ([], 0)))
          = map zoneName (seq 0 (List.length (fst (fold_left zoneStep bands ([], 0)))))).
  { intros [_ H]. exact H. }
  apply (zoneSteps_invariant
           (fun st => snd st = len (fst st)
                      /\ map zone_id (fst st) = map zoneName (seq 0 (List.length (fst st))))
           (fun _ => True)).
  - intros st [k veggies] HI _.
    destruct (zoneStep_cases st k veggies)
      as [(_ & _ & z1 & z2 & st1 & st2 & E1 & E2 & _ & _ & _ & _ & [[_ E] | [_ E]]) | [_ E]];
      rewrite E; subst; repeat apply pushZone_names; exact HI.
  - apply Forall_forall. auto.
  - split; reflexivity.
Qed.

Lemma pushTo_proper v groups :
  Forall properBand groups -> Forall properBand (pushTo (tempKey v) v groups).
Proof.
  induction 1 as [|[k members] rest [Hne Hk] Hrest IH]; simpl.
  - constructor; [|constructor]. split; simpl; [discriminate|].
    intros w [<- | []]. reflexivity.
  - destruct (String.eqb k (tempKey v)) eqn:E.
    + constructor; [|assumption]. apply String.eqb_eq in E. split; simpl.
      * intros H. apply app_eq_nil in H. destruct H. discriminate.
      * simpl in Hk. intros w Hw. apply in_app_or in Hw.
        destruct Hw as [Hw | [<- | []]]; auto.
    + constructor; [now split | assumption].
Qed.

Lemma groups_proper vs : Forall properBand (temperatureGroups vs).
Proof.
  unfold temperatureGroups.
  cut (forall groups, Forall properBand groups ->
         Forall properBand
           (fold_left (fun groups veg => pushTo (tempKey veg) veg groups) vs groups)).
  { intros H. apply H. constructor. }
  induction vs as [|v vs IH]; intros groups Hg; simpl; [assumption|].
  apply IH. now apply pushTo_proper.
Qed.

Lemma groups_within vs band v :
  In band (temperatureGroups vs) -> In v (snd band) -> In v vs.
Proof.
  intros Hb Hv.
  assert (Hp : Permutation (List.concat (map snd (temperatureGroups vs))) vs).
  { unfold temperatureGroups. now rewrite groups_members. }
  eapply Permutation_in; [exact Hp|].
  apply in_concat. exists (snd band). split; [now apply in_map | assumption].
Qed.

Lemma pushZone_Forall (Z : LoadZone -> Prop) st members tempRange pos colour :
  Forall Z (fst st) -> Z (zoneAt st members tempRange pos colour) ->
  Forall Z (fst (pushZone st members tempRange pos colour)).
Proof.
  intros H1 H2. rewrite pushZone_eq. cbn [fst].
  apply Forall_app. split; [assumption | now constructor].
Qed.

Lemma zoneSteps_zones (Z : LoadZone -> Prop) (B : string * list Vegetable -> Prop) :
  (forall st band, Forall Z (fst st) -> B band -> Forall Z (fst (zoneStep st band))) ->
  forall vs, Forall B (temperatureGroups vs) -> Forall Z (optimizeLoading vs).
Proof.
  intros Hstep vs HB. unfold optimizeLoading.
  destruct vs as [|v rest]; [constructor|].
  apply (zoneSteps_invariant (fun st => Forall Z (fst st)) B Hstep); [assumption|].
  constructor.
Qed.

Lemma length_append (s t : string) :
  String.length (s ++ t) = (String.length s + String.length t)%nat.
Proof. induction s as [|c s IH]; simpl; [reflexivity | now rewrite IH]. Qed.

Lemma append_cancel_r (s t u : string) : (s ++ u = t ++ u)%string -> s = t.
Proof.
  revert t. induction s as [|c s IH]; intros [|d t] E; simpl in E.
  - reflexivity.
  - exfalso. assert (L := f_equal String.length E).
    simpl in L. rewrite length_append in L. lia.
  - exfalso. assert (L := f_equal String.length E).
    simpl in L. rewrite length_append in L. lia.
  - injection E as -> E. f_equal. now apply IH.
Qed.

(** No zone is empty, a zone's temperature label is the temperature key of
    every item in it followed by the unit, and so all items of a zone have
    the same temperature key. *)
Theorem zones_well_labelled (vs : list Vegetable) :
  forall z, In z (optimizeLoading vs) ->
    zone_vegetables z <> []
    /\ (forall v, In v (zone_vegetables z) ->
                  zone_temperature z = (tempKey v ++ "°C")%string)
    /\ (forall a b, In a (zone_vegetables z) -> In b (zone_vegetables z) ->
                    tempKey a = tempKey b).
Proof.
  assert (H : Forall wellLabelled (optimizeLoading vs)).
  { apply (zoneSteps_zones wellLabelled properBand); [|apply groups_proper].
    intros st [k veggies] Hst [Hne Hk]. simpl in Hne, Hk.
    assert (Hsub : forall st' (f : Vegetable -> bool) pos c,
               filter f veggies <> [] ->
               wellLabelled (zoneAt st' (filter f veggies) k pos c)).
    { intros st' f pos c Hf. split; [exact Hf|].
      intros v Hv. apply filter_In in Hv. destruct Hv as [Hv _].
      unfold zoneAt; simpl. now rewrite (Hk v Hv). }
    destruct (zoneStep_cases st k veggies)
      as [(HP & HS & z1 & z2 & st1 & st2 & E1 & E2 & _ & _ & _ & _ & [[_ E] | [HO E]])
         | [_ E]]; rewrite E; subst.
    - apply pushZone_Forall; [apply pushZone_Forall|]; auto.
    - apply pushZone_Forall; [apply pushZone_Forall; [apply pushZone_Forall|]|]; auto.
    - apply pushZone_Forall; [assumption|]. split; [exact Hne|].
      intros v Hv. unfold zoneAt; simpl. now rewrite (Hk v Hv). }
  intros z Hz. rewrite Forall_forall in H. destruct (H z Hz) as [Hne Hl].
  split; [exact Hne | split; [exact Hl|]].
  intros a b Ha Hb.
  pose proof (Hl a Ha) as Ea. rewrite (Hl b Hb) in Ea.
  symmetry. exact (append_cancel_r _ _ _ Ea).
Qed.

Lemma filter_nil_existsb {A : Type} (f : A -> bool) (l : list A) :
  filter f l = [] -> existsb f l = false.
Proof.
  induction l as [|a l IH]; simpl; [reflexivity|].
  destruct (f a); [discriminate | exact IH].
Qed.

Lemma existsb_false_on {A : Type} (f : A -> bool) (l : list A) :
  (forall a, In a l -> f a = false) -> existsb f l = false.
Proof.
  induction l as [|a l IH]; intros H; simpl; [reflexivity|].
  rewrite (H a (or_introl eq_refl)). apply IH. intros b Hb. apply H. now right.
Qed.

(** When no item is both a high producer and highly sensitive, no zone
    holds a high producer together with a highly sensitive item. *)
Theorem zones_isolate_producers (vs : list Vegetable) :
  (forall v, In v vs -> dualRole v = false) ->
  forall z, In z (optimizeLoading vs) -> mixes z = false.
Proof.
  intros Hno.
  apply Forall_forall.
  apply (zoneSteps_zones (fun z => mixes z = false)
           (fun band => forall v, In v (snd band) -> dualRole v = false)).
  - intros st [k veggies] Hst Hb. simpl in Hb.
    assert (HP : forall st' pos c,
               mixes (zoneAt st' (filter (fun v => isHigh (ethyleneProduction v)) veggies)
                             k pos c) = false).
    { intros st' pos c. unfold mixes, zoneAt; simpl.
      rewrite (existsb_false_on (fun v => isHigh (ethyleneSensitivity v))).
      - apply andb_false_r.
      - intros v Hv. apply filter_In in Hv. destruct Hv as [Hv Hh].
        specialize (Hb v Hv). unfold dualRole in Hb. simpl in Hh.
        rewrite Hh in Hb. exact Hb. }
    assert (HS : forall st' pos c,
               mixes (zoneAt st' (filter (fun v => isHigh (ethyleneSensitivity v)) veggies)
                             k pos c) = false).
    { intros st' pos c. unfold mixes, zoneAt; simpl.
      rewrite (existsb_false_on (fun v => isHigh (ethyleneProduction v))).
      - reflexivity.
      - intros v Hv. apply filter_In in Hv. destruct Hv as [Hv Hh].
        specialize (Hb v Hv). unfold dualRole in Hb. simpl in Hh.
        rewrite Hh, andb_true_r in Hb. exact Hb. }
    destruct (zoneStep_cases st k veggies)
      as [(_ & _ & z1 & z2 & st1 & st2 & E1 & E2 & _ & _ & _ & _ & [[_ E] | [_ E]])
         | [Hor E]]; rewrite E; subst.
    + apply pushZone_Forall; [apply pushZone_Forall|]; auto.
    + apply pushZone_Forall; [apply pushZone_Forall; [apply pushZone_Forall|]|]; auto.
      unfold mixes, zoneAt; simpl.
        rewrite (existsb_false_on (fun v => isHigh (ethyleneProduction v))); [reflexivity|].
        intros v Hv. apply filter_In in Hv. destruct Hv as [_ Hh].
        apply andb_true_iff in Hh. destruct Hh as [Hh _].
        now apply negb_true_iff in Hh.
    + apply pushZone_Forall; [assumption|].
      unfold mixes, zoneAt; simpl.
      destruct Hor as [H0 | H0]; rewrite (filter_nil_existsb _ _ H0);
        [reflexivity | apply andb_false_r].
  - apply Forall_forall. intros band Hband v Hv.
    apply Hno. eapply groups_within; eassumption.
Qed.

Lemma zones_isolate_producers_witness :
  mixes (mkZone "zone-0" [mkVegetable "id4" "Tomatoes" 1 high medium (Temp.mk 12 15) 7]
                "12-15°C" (mkPos 10 10 180 100)
                "bg-fresh-green-light/40 border-fresh-green/40")
  = false.
Proof.
  apply (zones_isolate_producers tomatoesEggplant).
  - intros v [<- | [<- | []]]; reflexivity.
  - left. reflexivity.
Defined.

Lemma gridCell_disjoint i j : i <> j -> ~ overlaps (gridCell i) (gridCell j).
Proof.
  intros Hij. unfold overlaps, gridCell; cbn [x y width height].
  assert (Hne : Z.of_nat i <> Z.of_nat j) by lia.
  pose proof (Z.div_mod (Z.of_nat i) 3 ltac:(lia)) as Di.
  pose proof (Z.div_mod (Z.of_nat j) 3 ltac:(lia)) as Dj.
  pose proof (Z.mod_pos_bound (Z.of_nat i) 3 ltac:(lia)) as Bi.
  pose proof (Z.mod_pos_bound (Z.of_nat j) 3 ltac:(lia)) as Bj.
  revert Hne Di Dj Bi Bj.
  generalize (Z.of_nat i mod 3) (Z.of_nat i / 3) (Z.of_nat j mod 3) (Z.of_nat j / 3)
             (Z.of_nat i) (Z.of_nat j).
  intros mi di mj dj I J. lia.
Qed.

Lemma band_never_splits vs band :
  neverSplits vs -> In band (temperatureGroups vs) ->
  filter (fun v => isHigh (ethyleneProduction v)) (snd band) = []
  \/ filter (fun v => isHigh (ethyleneSensitivity v)) (snd band) = [].
Proof.
  intros Hns Hband.
  destruct (filter (fun v => isHigh (ethyleneProduction v)) (snd band)) as [|a P] eqn:EP;
    [now left|].
  destruct (filter (fun v => isHigh (ethyleneSensitivity v)) (snd band)) as [|b S] eqn:ES;
    [now right|].
  exfalso.
  assert (Ha : In a (filter (fun v => isHigh (ethyleneProduction v)) (snd band)))
    by (rewrite EP; now left).
  assert (Hb : In b (filter (fun v => isHigh (ethyleneSensitivity v)) (snd band)))
    by (rewrite ES; now left).
  apply filter_In in Ha, Hb. destruct Ha as [Ha Hpa], Hb as [Hb Hsb].
  pose proof (groups_proper vs) as Hp. rewrite Forall_forall in Hp.
  destruct (Hp band Hband) as [_ Hk].
  apply (Hns a b); try assumption.
  - eapply groups_within; eassumption.
  - eapply groups_within; eassumption.
  - now rewrite (Hk a Ha), (Hk b Hb).
Qed.

Lemma single_zone_step st band :
  (filter (fun v => isHigh (ethyleneProduction v)) (snd band) = []
   \/ filter (fun v => isHigh (ethyleneSensitivity v)) (snd band) = []) ->
  exists z, fst (zoneStep st band) = fst st ++ [z]
            /\ position z = gridCell (List.length (fst st))
            /\ zone_vegetables z = snd band.
Proof.
  destruct band as [k veggies]. cbn [snd]. intros Hor.
  destruct (zoneStep_cases st k veggies) as [(HP & HS & _) | [_ E]].
  - destruct Hor; contradiction.
  - rewrite E, pushZone_eq. cbn [fst]. eexists. split; [reflexivity|].
    split; reflexivity.
Qed.

Lemma single_zone_steps bands st :
  Forall (fun band =>
            filter (fun v => isHigh (ethyleneProduction v)) (snd band) = []
            \/ filter (fun v => isHigh (ethyleneSensitivity v)) (snd band) = []) bands ->
  map position (fst st) = map gridCell (seq 0 (List.length (fst st))) ->
  map position (fst (fold_left zoneStep bands st))
  = map gridCell (seq 0 (List.length (fst (fold_left zoneStep bands st))))
  /\ map zone_vegetables (fst (fold_left zoneStep bands st))
     = map zone_vegetables (fst st) ++ map snd bands.
Proof.
  intros HB. revert st.
  induction HB as [|band bands Hb _ IH]; intros st Hst; simpl.
  - split; [assumption | now rewrite app_nil_r].
  - destruct (single_zone_step st band Hb) as (z & E & Hp & Hv).
    destruct (IH (zoneStep st band)) as [IH1 IH2].
    + rewrite E, length_app, seq_app, !map_app, Hst. simpl. now rewrite Hp.
    + split; [exact IH1|].
      rewrite IH2, E, map_app, <- app_assoc. simpl. now rewrite Hv.
Qed.

(** When no temperature band holds both a high producer and a highly
    sensitive item, there is exactly one zone per band, holding the whole
    band; the zone of rank k sits in cell (k mod 3, k div 3) of the grid,
    and no two zones overlap. *)
Theorem grid_without_split (vs : list Vegetable) :
  neverSplits vs ->
  map zone_vegetables (optimizeLoading vs) = map snd (temperatureGroups vs)
  /\ map position (optimizeLoading vs)
     = map gridCell (seq 0 (List.length (optimizeLoading vs)))
  /\ forall i j zi zj,
       i <> j -> nth_error (optimizeLoading vs) i = Some zi ->
       nth_error (optimizeLoading vs) j = Some zj ->
       ~ overlaps (position zi) (position zj).
Proof.
  intros Hns.
  assert (H : map position (optimizeLoading vs)
              = map gridCell (seq 0 (List.length (optimizeLoading vs)))
              /\ map zone_vegetables (optimizeLoading vs) = map snd (temperatureGroups vs)).
  { unfold optimizeLoading. destruct vs as [|v rest]; [split; reflexivity|].
    apply (single_zone_steps (temperatureGroups (v :: rest)) ([], 0)); [|reflexivity].
    apply Forall_forall. intros band Hband. now apply (band_never_splits (v :: rest)). }
  destruct H as [Hpos Hveg].
  split; [exact Hveg | split; [exact Hpos|]].
  intros i j zi zj Hij Hi Hj.
  assert (Hci : position zi = gridCell i).
  { pose proof (map_nth_error position _ _ Hi) as E. rewrite Hpos in E.
    rewrite nth_error_map in E.
    assert (Hlt : (i < List.length (optimizeLoading vs))%nat)
      by (apply nth_error_Some; congruence).
    rewrite (nth_error_nth' _ 0%nat) in E by (now rewrite length_seq).
    rewrite seq_nth in E by assumption. simpl in E. congruence. }
  assert (Hcj : position zj = gridCell j).
  { pose proof (map_nth_error position _ _ Hj) as E. rewrite Hpos in E.
    rewrite nth_error_map in E.
    assert (Hlt : (j < List.length (optimizeLoading vs))%nat)
      by (apply nth_error_Some; congruence).
    rewrite (nth_error_nth' _ 0%nat) in E by (now rewrite length_seq).
    rewrite seq_nth in E by assumption. simpl in E. congruence. }
  rewrite Hci, Hcj. now apply gridCell_disjoint.
Qed.

Lemma grid_without_split_witness :
  map position (optimizeLoading onionsPotatoes)
  = map gridCell (seq 0 (List.length (optimizeLoading onionsPotatoes))).
Proof.
  apply (grid_without_split onionsPotatoes).
  intros a b [<- | [<- | []]] [<- | [<- | []]] _ Ha Hb; discriminate.
Defined.

(** * Loads built from the catalog *)

Lemma lookup_In k db d : lookup k db = Some d -> In d (map snd db).
Proof.
  induction db as [|[k' d'] db IH]; simpl; [discriminate|].
  destruct (String.eqb k' k); [intros [= <-]; now left | intros H; right; auto].
Qed.

Lemma addVegetable_nodup sel newId vs :
  NoDup (map name vs) -> NoDup (map name (addVegetable sel newId vs)).
Proof.
  intros Hnd.
  destruct (addVegetable_outcome sel newId vs) as [[_ E] | [(_ & _ & E) | (Hc & d & Hl & E)]];
    rewrite E; try assumption.
  apply orb_false_iff in Hc. destruct Hc as [_ Hx].
  rewrite map_app. apply NoDup_app; [assumption | |].
  - simpl. constructor; [intros [] | constructor].
  - intros a Ha [<- | []]. simpl in Ha.
    rewrite (lookup_name sel _ d database_keys Hl) in Ha.
    apply named_iff in Ha. congruence.
Qed.

Lemma bump_fromCatalog target change v : fromCatalog v -> fromCatalog (bump target change v).
Proof.
  intros (d & Hd & E). unfold bump.
  destruct (String.eqb (id v) target); [|now exists d].
  exists d. split; [assumption|]. rewrite E at 1. reflexivity.
Qed.

(** Every load model built from the empty one by [addVegetable] on an
    offered selection and by [updateQuantity] has quantities of at least 1,
    pairwise distinct names, and only items carrying the attributes of a
    catalog entry. *)
Theorem reachable_invariant (vs : list Vegetable) :
  Reachable vs ->
  allPositive vs /\ NoDup (map name vs) /\ Forall fromCatalog vs.
Proof.
  induction 1 as [|sel newId vs _ _ (Hpos & Hnd & Hcat)|target change vs _ (Hpos & Hnd & Hcat)].
  - repeat split; constructor.
  - split; [|split].
    + destruct (addVegetable_cases sel newId vs) as [E | (v & Hq & _ & E)]; rewrite E;
        [assumption|].
      apply Forall_app. split; [assumption|]. constructor; [lia | constructor].
    + now apply addVegetable_nodup.
    + destruct (addVegetable_outcome sel newId vs)
        as [[_ E] | [(_ & _ & E) | (_ & d & Hl & E)]]; rewrite E; try assumption.
      apply Forall_app. split; [assumption|]. constructor; [|constructor].
      exists d. split; [now apply (lookup_In sel) | reflexivity].
  - split; [|split].
    + apply updateQuantity_positive.
    + now apply (updateQuantity_keys name target change vs (bump_name target change)).
    + unfold updateQuantity. apply Forall_forall. intros w Hw.
      apply filter_In in Hw. destruct Hw as [Hw _].
      apply in_map_iff in Hw. destruct Hw as (v & <- & Hv).
      apply bump_fromCatalog. rewrite Forall_forall in Hcat. now apply Hcat.
Qed.

Lemma reachable_invariant_witness : allPositive onionsPotatoes.
Proof.
  apply (reachable_invariant onionsPotatoes).
  apply reach_add; [right; simpl; tauto|].
  apply reach_add; [right; simpl; tauto|].
  apply reach_start.
Defined.

Lemma catalog_facts d :
  In d (map snd VEGETABLE_DATABASE) ->
  5 <= d_shelfLife d
  /\ 0 <= Temp.min (d_idealTemp d) < Temp.max (d_idealTemp d)
  /\ (isHigh (d_ethyleneProduction d) = true ->
      d_idealTemp d = Temp.mk 12 15 /\ isHigh (d_ethyleneSensitivity d) = false)
  /\ (isHigh (d_ethyleneSensitivity d) = true ->
      d_idealTemp d = Temp.mk 0 2 \/ d_idealTemp d = Temp.mk 10 12
      \/ d_idealTemp d = Temp.mk 7 10).
Proof.
  intros H. simpl in H.
  repeat (destruct H as [<- | H];
          [cbn; repeat split; intros; try discriminate; try lia; auto|]).
  destruct H.
Qed.

(** In a load of catalog items no item is both a high producer and highly
    sensitive, no temperature band ever needs the split, every shelf life is
    at least 5 days and every ideal range is a proper range starting at 0
    or above. *)
Theorem catalog_loads (vs : list Vegetable) :
  Forall fromCatalog vs ->
  (forall v, In v vs -> dualRole v = false)
  /\ neverSplits vs
  /\ (forall v, In v vs ->
        5 <= shelfLife v /\ 0 <= Temp.min (idealTemp v) < Temp.max (idealTemp v)).
Proof.
  intros Hcat. rewrite Forall_forall in Hcat.
  split; [|split].
  - intros v Hv. destruct (Hcat v Hv) as (d & Hd & E).
    destruct (catalog_facts d Hd) as (_ & _ & Hp & _).
    rewrite E. unfold dualRole; simpl.
    destruct (isHigh (d_ethyleneProduction d)); [|reflexivity].
    now destruct (Hp eq_refl) as [_ ->].
  - intros a b Ha Hb Hkey Hpa Hsb.
    destruct (Hcat a Ha) as (da & Hda & Ea). destruct (Hcat b Hb) as (db & Hdb & Eb).
    destruct (catalog_facts da Hda) as (_ & _ & Hp & _).
    destruct (catalog_facts db Hdb) as (_ & _ & _ & Hs).
    rewrite Ea in Hpa, Hkey. rewrite Eb in Hsb, Hkey.
    unfold tempKey in Hkey. simpl in Hpa, Hsb, Hkey.
    destruct (Hp Hpa) as [Ta _]. rewrite Ta in Hkey.
    destruct (Hs Hsb) as [Tb | [Tb | Tb]]; rewrite Tb in Hkey; discriminate Hkey.
  - intros v Hv. destruct (Hcat v Hv) as (d & Hd & E).
    destruct (catalog_facts d Hd) as (H5 & Ht & _).
    rewrite E. simpl. auto.
Qed.

Lemma catalog_loads_witness :
  dualRole (mkVegetable "id4" "Tomatoes" 1 high medium (Temp.mk 12 15) 7) = false.
Proof.
  destruct (catalog_loads tomatoesEggplant) as [H _].
  - repeat constructor; eexists; (split; [|reflexivity]); simpl; tauto.
  - apply H. left. reflexivity.
Defined.

Section CatalogImpact.

Variable rnd : Q -> Q.

Hypothesis rnd_mono : forall a b : Q, (a <= b)%Q -> (rnd a <= rnd b)%Q.
Hypothesis rnd_int : forall z : Z, (rnd (inject_Z z) == inject_Z z)%Q.
Hypothesis rnd_half : (rnd (1 # 2) == 1 # 2)%Q.

Open Scope Q_scope.

Lemma shelf_sum_lower l (k : Z) a :
  Forall (fun v => (5 <= shelfLife v)%Z) l -> inject_Z k <= a ->
  inject_Z (k + 5 * len l)
  <= fold_left (fun sum veg => add rnd sum (num (shelfLife veg))) l a.
Proof.
  intros Hl. revert k a.
  induction Hl as [|v l Hv _ IH]; intros k a Ha; cbn [fold_left].
  - replace (k + 5 * len (@nil Vegetable))%Z with k by (unfold len; simpl; lia).
    exact Ha.
  - replace (k + 5 * len (v :: l))%Z with ((k + 5) + 5 * len l)%Z
      by (unfold len; simpl List.length; lia).
    apply IH. unfold add. rewrite <- (rnd_int (k + 5)). apply rnd_mono.
    rewrite inject_Z_plus.
    assert (inject_Z 5 <= num (shelfLife v)) by (unfold num; rewrite <- Zle_Qle; exact Hv).
    lra.
Qed.

Lemma avgShelfLife_lower vs :
  vs <> [] -> Forall (fun v => (5 <= shelfLife v)%Z) vs -> 5 <= avgShelfLife rnd vs.
Proof.
  intros Hne Hl. unfold avgShelfLife, div.
  change 5 with (inject_Z 5). rewrite <- (rnd_int 5). apply rnd_mono.
  assert (Hn : 0 < num (len vs)).
  { unfold num, len, Qlt; simpl. destruct vs; [congruence | simpl; lia]. }
  apply Qle_shift_div_l; [assumption|].
  pose proof (shelf_sum_lower vs 0 0 Hl (Qle_refl 0)) as H.
  eapply Qle_trans; [|exact H].
  unfold num. rewrite <- inject_Z_mult, <- Zle_Qle. lia.
Qed.

(** For a non-empty load of catalog items the one-day floor on the
    baseline shelf life never applies: 0.7 x average is at least 1, the
    reported baseline is that value, and the reported extension is the
    optimized figure minus the reported baseline. *)
Theorem catalog_shelf_life (vs : list Vegetable) (unitCost : Q) :
  vs <> [] -> Forall fromCatalog vs ->
  let r := calculateImpact rnd vs unitCost in
  1 <= mul rnd (avgShelfLife rnd vs) (lit rnd 0.7)
  /\ shelfLifeDays (withoutShelfLife r) == mul rnd (avgShelfLife rnd vs) (lit rnd 0.7)
  /\ shelfLifeExtension (savings r)
     == sub rnd (shelfLifeDays (withShelfLife r)) (shelfLifeDays (withoutShelfLife r)).
Proof.
  intros Hne Hcat.
  assert (H5 : Forall (fun v => (5 <= shelfLife v)%Z) vs).
  { rewrite Forall_forall in *. intros v Hv. destruct (Hcat v Hv) as (d & Hd & E).
    rewrite E. simpl. now destruct (catalog_facts d Hd). }
  pose proof (avgShelfLife_lower vs Hne H5) as Havg.
  assert (H07 : 1 # 2 <= lit rnd 0.7).
  { unfold lit. rewrite <- rnd_half. apply rnd_mono. unfold Qle; simpl; lia. }
  assert (Hfloor : 1 <= mul rnd (avgShelfLife rnd vs) (lit rnd 0.7)).
  { unfold mul. change 1 with (inject_Z 1). rewrite <- (rnd_int 1). apply rnd_mono.
    change (inject_Z 1) with 1.
    apply Qle_trans with (5 * (1 # 2)); [unfold Qle; simpl; lia|].
    apply Qle_trans with (avgShelfLife rnd vs * (1 # 2)).
    - apply Qmult_le_compat_r; [assumption | unfold Qle; simpl; lia].
    - rewrite !(Qmult_comm (avgShelfLife rnd vs)).
      apply Qmult_le_compat_r; [assumption | lra]. }
  destruct vs as [|v rest]; [congruence|]. cbv zeta.
  unfold calculateImpact.
  cbn [withShelfLife withoutShelfLife savings shelfLifeDays shelfLifeExtension].
  split; [exact Hfloor | split].
  - now apply Q.max_r.
  - unfold sub. apply (rnd_proper rnd rnd_mono).
    now rewrite (Q.max_r _ _ Hfloor).
Qed.

End CatalogImpact.

Lemma exact_half : (exact (1 # 2) == 1 # 2)%Q.
Proof. apply Qeq_refl. Qed.

Lemma catalog_shelf_life_witness :
  (1 <= mul exact (avgShelfLife exact tomatoesEggplant) (lit exact 0.7))%Q.
Proof.
  apply (catalog_shelf_life exact exact_mono exact_int exact_half tomatoesEggplant 100).
  - discriminate.
  - repeat constructor; eexists; (split; [|reflexivity]); simpl; tauto.
Defined.

(** * CSV export *)

Lemma append_assoc (s t u : string) : ((s ++ t) ++ u = s ++ (t ++ u))%string.
Proof. induction s as [|c s IH]; simpl; [reflexivity | now rewrite IH]. Qed.

Lemma append_nil_r (s : string) : (s ++ EmptyString)%string = s.
Proof. induction s as [|c s IH]; simpl; [reflexivity | now rewrite IH]. Qed.

Lemma snoc_append cur c f : (snoc cur c ++ f)%string = (cur ++ String c f)%string.
Proof. unfold snoc. now rewrite append_assoc. Qed.

Lemma read_plain f cur t :
  needsQuoting f = false -> afterField t ->
  readLine InPlain cur (f ++ t) = closeField (cur ++ f)%string t.
Proof.
  revert cur. induction f as [|c f IH]; intros cur Hf Ht; simpl.
  - rewrite append_nil_r. destruct Ht as [-> | (t' & ->)]; [reflexivity|].
    simpl. reflexivity.
  - simpl in Hf. apply orb_false_iff in Hf. destruct Hf as [Hc Hf].
    apply orb_false_iff in Hc. destruct Hc as [Hc _].
    apply orb_false_iff in Hc. destruct Hc as [_ Hc].
    rewrite Hc, (IH (snoc cur c) Hf Ht). now rewrite snoc_append.
Qed.

Lemma read_quoted f cur t :
  afterField t ->
  readLine InQuoted cur (doubleQuotes f ++ String dquote t) = closeField (cur ++ f)%string t.
Proof.
  revert cur. induction f as [|c f IH]; intros cur Ht; simpl.
  - rewrite append_nil_r. destruct Ht as [-> | (t' & ->)]; reflexivity.
  - destruct (Ascii.eqb c dquote) eqn:E; simpl.
    + apply Ascii.eqb_eq in E. subst c.
      rewrite (IH (snoc cur dquote) Ht). now rewrite snoc_append.
    + rewrite E, (IH (snoc cur c) Ht). now rewrite snoc_append.
Qed.

Lemma read_field f t :
  afterField t ->
  readLine FieldStart EmptyString (csvField f ++ t) = closeField f t.
Proof.
  intros Ht. unfold csvField.
  destruct (needsQuoting f) eqn:N.
  - simpl. rewrite append_assoc. simpl. now rewrite (read_quoted f EmptyString t Ht).
  - destruct f as [|c f]; simpl.
    + destruct Ht as [-> | (t' & ->)]; reflexivity.
    + simpl in N. apply orb_false_iff in N. destruct N as [Hc Hf].
      apply orb_false_iff in Hc. destruct Hc as [Hc _].
      apply orb_false_iff in Hc. destruct Hc as [Hq Hc].
      rewrite Hq, Hc. now rewrite (read_plain f _ t Hf Ht).
Qed.

Lemma read_line r :
  r <> [] -> readLine FieldStart EmptyString (csvLine r) = r.
Proof.
  induction r as [|f r IH]; [congruence | intros _].
  destruct r as [|g r].
  - unfold csvLine; simpl.
    rewrite <- (append_nil_r (csvField f)).
    rewrite (read_field f EmptyString); [reflexivity | now left].
  - change (csvLine (f :: g :: r))
      with (csvField f ++ String comma (csvLine (g :: r)))%string.
    rewrite (read_field f); [|right; eauto].
    simpl. f_equal. apply IH. discriminate.
Qed.

(** The escaping of one field is reversible: two fields with the same
    escaped text are equal, and a field without double quote, comma or line
    feed is written as it is. *)
Theorem csvField_injective (f g : string) :
  (csvField f = csvField g -> f = g)
  /\ (needsQuoting f = false -> csvField f = f).
Proof.
  split.
  - intros E.
    assert (H : readLine FieldStart EmptyString (csvLine [f])
                = readLine FieldStart EmptyString (csvLine [g])).
    { unfold csvLine; simpl. now rewrite E. }
    rewrite !read_line in H by discriminate. congruence.
  - intros N. unfold csvField. now rewrite N.
Qed.

(** A line of the export determines its fields: two non-empty rows with
    the same line are the same row, so no comma, quote or line feed inside a
    field can shift or merge columns. *)
Theorem csvLine_injective (r1 r2 : list string) :
  r1 <> [] -> r2 <> [] -> csvLine r1 = csvLine r2 -> r1 = r2.
Proof.
  intros H1 H2 E.
  rewrite <- (read_line r1 H1), <- (read_line r2 H2). now rewrite E.
Qed.

Lemma csvLine_injective_witness :
  csvRow bananas = ["Bananas"; "1"; "high"; "high"; "13"; "15"; "5"].
Proof.
  apply (csvLine_injective (csvRow bananas) ["Bananas"; "1"; "high"; "high"; "13"; "15"; "5"]).
  - discriminate.
  - discriminate.
  - reflexivity.
Defined.

Lemma csvField_injective_witness : csvField "Chinese cabbage" = "Chinese cabbage".
Proof.
  apply (proj2 (csvField_injective "Chinese cabbage" "Chinese cabbage")). reflexivity.
Defined.

(** * Temperature bands *)

Lemma underKey_app k l1 l2 : underKey k (l1 ++ l2) = underKey k l1 ++ underKey k l2.
Proof. unfold underKey. apply filter_app. Qed.

Lemma underKey_absent k l :
  (forall v, In v l -> tempKey v <> k) -> underKey k l = [].
Proof.
  unfold underKey. induction l as [|v l IH]; intros H; simpl; [reflexivity|].
  destruct (String.eqb (tempKey v) k) eqn:E.
  - apply String.eqb_eq in E. elim (H v (or_introl eq_refl) E).
  - apply IH. intros w Hw. apply H. now right.
Qed.

Lemma pushTo_fresh k v groups :
  ~ In k (map fst groups) -> pushTo k v groups = groups ++ [(k, [v])].
Proof.
  induction groups as [|[k' m] rest IH]; simpl; intros H; [reflexivity|].
  destruct (String.eqb k' k) eqn:E.
  - apply String.eqb_eq in E. elim H. now left.
  - rewrite IH; [reflexivity|]. intros Hin. apply H. now right.
Qed.

Lemma pushTo_known k v groups :
  In k (map fst groups) ->
  exists g1 m g2, groups = g1 ++ (k, m) :: g2
                  /\ pushTo k v groups = g1 ++ (k, m ++ [v]) :: g2.
Proof.
  induction groups as [|[k' m] rest IH]; simpl; intros H; [destruct H|].
  destruct (String.eqb k' k) eqn:E.
  - apply String.eqb_eq in E. subst k'. exists [], m, rest. auto.
  - apply String.eqb_neq in E. destruct H as [H | H]; [congruence|].
    destruct (IH H) as (g1 & m' & g2 & -> & ->).
    exists ((k', m) :: g1), m', g2. auto.
Qed.

Lemma underKey_one_same v : underKey (tempKey v) [v] = [v].
Proof. unfold underKey; simpl. now rewrite String.eqb_refl. Qed.

Lemma underKey_one_other k v : k <> tempKey v -> underKey k [v] = [].
Proof.
  intros H. unfold underKey; simpl.
  destruct (String.eqb (tempKey v) k) eqn:E; [|reflexivity].
  apply String.eqb_eq in E. congruence.
Qed.

Lemma pushTo_grouped v groups seen :
  groupedAs groups seen -> groupedAs (pushTo (tempKey v) v groups) (seen ++ [v]).
Proof.
  intros (Hnd & Hmem & Hall).
  destruct (in_dec string_dec (tempKey v) (map fst groups)) as [Hin | Hnot].
  - destruct (pushTo_known (tempKey v) v groups Hin) as (g1 & m & g2 & Eg & Ep).
    rewrite Ep. subst groups.
    assert (Hkeys : map fst (g1 ++ (tempKey v, m ++ [v]) :: g2)
                    = map fst (g1 ++ (tempKey v, m) :: g2)).
    { now rewrite !map_app. }
    assert (Hother : forall k mm, In (k, mm) (g1 ++ g2) -> k <> tempKey v).
    { intros k mm Hk ->. rewrite map_app in Hnd. simpl in Hnd.
      apply NoDup_remove_2 in Hnd. apply Hnd. rewrite <- map_app.
      change (tempKey v) with (fst (tempKey v, mm)). now apply in_map. }
    split; [|split].
    + now rewrite Hkeys.
    + intros k mm Hk. rewrite underKey_app.
      apply in_app_or in Hk. destruct Hk as [Hk | [[= <- <-] | Hk]].
      * assert (Hne : k <> tempKey v) by (apply (Hother k mm), in_or_app; now left).
        rewrite (underKey_one_other k v Hne), app_nil_r.
        apply Hmem, in_or_app. now left.
      * destruct (Hmem (tempKey v) m) as [-> _]; [apply in_or_app; right; now left|].
        rewrite underKey_one_same. split; [reflexivity|].
        intros H. apply app_eq_nil in H. destruct H. discriminate.
      * assert (Hne : k <> tempKey v) by (apply (Hother k mm), in_or_app; now right).
        rewrite (underKey_one_other k v Hne), app_nil_r.
        apply Hmem, in_or_app. right. now right.
    + intros w Hw. rewrite Hkeys. apply in_app_or in Hw.
      destruct Hw as [Hw | [<- | []]]; [now apply Hall | exact Hin].
  - rewrite (pushTo_fresh _ v groups Hnot).
    split; [|split].
    + rewrite map_app. apply NoDup_app; [assumption | |].
      * simpl. constructor; [intros [] | constructor].
      * intros k Hk [<- | []]. now apply Hnot.
    + intros k mm Hk. rewrite underKey_app.
      apply in_app_or in Hk. destruct Hk as [Hk | [[= <- <-] | []]].
      * assert (Hne : k <> tempKey v).
        { intros ->. apply Hnot. change (tempKey v) with (fst (tempKey v, mm)).
          now apply in_map. }
        rewrite (underKey_one_other k v Hne), app_nil_r. now apply Hmem.
      * rewrite underKey_one_same, underKey_absent; [split; [reflexivity | discriminate]|].
        intros w Hw E. apply Hnot. rewrite <- E. now apply Hall.
    + intros w Hw. rewrite map_app. apply in_or_app. apply in_app_or in Hw.
      destruct Hw as [Hw | [<- | []]]; [left; now apply Hall | right; now left].
Qed.

Lemma groups_grouped vs groups seen :
  groupedAs groups seen ->
  groupedAs (fold_left (fun groups veg => pushTo (tempKey veg) veg groups) vs groups)
            (seen ++ vs).
Proof.
  revert groups seen. induction vs as [|v vs IH]; intros groups seen H; simpl.
  - now rewrite app_nil_r.
  - replace (seen ++ v :: vs) with ((seen ++ [v]) ++ vs) by (now rewrite <- app_assoc).
    apply IH. now apply pushTo_grouped.
Qed.

(** The grouping step makes one band per distinct temperature key: keys
    are pairwise distinct, every item's key has a band, and each band holds
    exactly the items of its key, in load order, so it is never empty. *)
Theorem temperature_bands (vs : list Vegetable) :
  NoDup (map fst (temperatureGroups vs))
  /\ (forall k members, In (k, members) (temperatureGroups vs) ->
        members = underKey k vs /\ members <> [])
  /\ (forall v, In v vs -> In (tempKey v) (map fst (temperatureGroups vs))).
Proof.
  unfold temperatureGroups.
  apply (groups_grouped vs [] []).
  split; [constructor | split; [intros k m [] | intros v []]].
Qed.

Lemma verdict_fields a b :
  Result.compatible (verdict a b) = Result.compatible (verdict b a)
  /\ Result.reason (verdict a b) = Result.reason (verdict b a)
  /\ Result.severity (verdict a b) = Result.severity (verdict b a).
Proof.
  unfold verdict.
  fold (ethyleneConflict a b) (tempConflict a b) (ethyleneConflict b a) (tempConflict b a).
  rewrite (ethyleneConflict_sym b a), (tempConflict_sym b a).
  destruct (ethyleneConflict a b), (tempConflict a b); auto.
Qed.

(** The analysis does not depend on the order of the load beyond the pair
    labels: reversing the load gives the same number of verdicts, and each
    verdict of the reversed load agrees in compatibility, reason and
    severity with a verdict of the original one. *)
Theorem analysis_order_independent (vs : list Vegetable) (r : Result.t) :
  In r (analyzeCompatibility (rev vs)) ->
  exists r', In r' (analyzeCompatibility vs)
             /\ Result.compatible r = Result.compatible r'
             /\ Result.reason r = Result.reason r'
             /\ Result.severity r = Result.severity r'.
Proof.
  intros Hr. apply analysis_pairs in Hr.
  destruct Hr as (i & j & a & b & Hij & Hi & Hj & ->).
  assert (Hjl : (j < List.length (rev vs))%nat) by (apply nth_error_Some; congruence).
  rewrite length_rev in Hjl.
  rewrite nth_error_rev in Hi, Hj.
  replace (i <? List.length vs)%nat with true in Hi by (symmetry; apply Nat.ltb_lt; lia).
  replace (j <? List.length vs)%nat with true in Hj by (symmetry; apply Nat.ltb_lt; lia).
  exists (verdict b a). split.
  - apply analysis_pairs.
    exists (List.length vs - S j)%nat, (List.length vs - S i)%nat, b, a.
    repeat split; auto. lia.
  - apply verdict_fields.
Qed.

Lemma temperature_bands_witness :
  [mkVegetable "id1" "Onions" 1 low low (Temp.mk 0 4) 90] = underKey "0-4" onionsPotatoes.
Proof.
  apply (proj1 (proj2 (temperature_bands onionsPotatoes)) "0-4" _).
  left. reflexivity.
Defined.

Lemma analysis_order_independent_witness :
  exists r', In r' (analyzeCompatibility tomatoesEggplant)
             /\ Result.severity r' = high.
Proof.
  destruct (analysis_order_independent tomatoesEggplant
              (verdict (mkVegetable "id5" "Eggplant" 1 low high (Temp.mk 10 12) 7)
                       (mkVegetable "id4" "Tomatoes" 1 high medium (Temp.mk 12 15) 7)))
    as (r' & Hin & _ & _ & Hs).
  - left. reflexivity.
  - exists r'. split; [exact Hin | now rewrite <- Hs].
Defined.

Lemma analysis_count_witness : analyzeCompatibility cauliflowerOnly = [].
Proof.
  apply (proj2 (analysis_count cauliflowerOnly)). vm_compute. lia.
Defined.

Lemma zones_well_labelled_witness :
  zone_vegetables
    (mkZone "zone-0" [mkVegetable "id1" "Onions" 1 low low (Temp.mk 0 4) 90] "0-4°C"
            (mkPos 10 10 180 100) "bg-fresh-green-light/40 border-fresh-green/40")
  <> [].
Proof.
  apply (zones_well_labelled onionsPotatoes). left. reflexivity.
Defined.

Lemma layout_partition_witness :
  Permutation (placed (optimizeLoading tomatoesEggplant)) tomatoesEggplant.
Proof.
  apply (layout_partition_without_dual_role tomatoesEggplant).
  intros v [<- | [<- | []]]; reflexivity.
Defined.
